(** * The workspace folder of the language server: cache, dedup, filter, trust

    A shallow embedding of [domain/ide/workspace/folder.go] (package
    [workspace]).  A [Folder] owns a diagnostic cache from file paths to
    issue lists; scan results arrive through [processResults], which
    deduplicates them against the cache, counts the accepted ones per
    product and severity, and republishes the filtered cache.

    The collaborators of the folder (scanner, notifier, scan notifier,
    hover channel, analytics endpoint) are only called, never inspected,
    so every call is recorded as an [Event] in a trace.  The model is
    sequential: it follows one goroutine through the code. *)

From Stdlib Require Import ZArith String List Lia.
From stdpp Require Import base option list gmap strings.

Local Open Scope Z_scope.
Local Open Scope string_scope.
Local Open Scope list_scope.
Local Open Scope stdpp_scope.

(** ** Data model (package [vulnmap], [product], [config]) *)

(** Modelled from the spec: the declaration of [vulnmap.Severity] is not among
    the sources; the spec lists the four values, which are also the four
    cases of every [switch issue.Severity] in the folder. *)
Inductive Severity := Critical | High | Medium | Low.

#[global] Instance Severity_eq_dec : EqDecision Severity.
Proof. solve_decision. Defined.

(** [product.Product] and [product.FilterableIssueType] are string types in
    Go: both are compared with the empty string and used as map keys. *)
Abbreviation Product := string (only parsing).
Abbreviation FilterableIssueType := string (only parsing).

(** Go's [int]: 64 bits, two's complement, [++] wraps around. *)
Definition int_wrap (z : Z) : Z := (z + 2 ^ 63) mod 2 ^ 64 - 2 ^ 63.
Definition int_incr (z : Z) : Z := int_wrap (z + 1).

(** [vulnmap.SeverityCount]: one counter per severity. *)
Module SeverityCount.
Record t := mk { Critical : Z; High : Z; Medium : Z; Low : Z }.
(** The zero value [vulnmap.SeverityCount{}]. *)
Definition zero : t := mk 0 0 0 0.
End SeverityCount.

#[global] Instance SeverityCount_eq_dec : EqDecision SeverityCount.t.
Proof. solve_decision. Defined.

(** The value of [config.CurrentConfig().FilterSeverity()]. *)
Module SeverityFilter.
Record t := mk { Critical : bool; High : bool; Medium : bool; Low : bool }.
End SeverityFilter.

(** [vulnmap.Issue], with the fields the folder reads.  [IssueType] is an
    integer enumeration in Go. *)
Module Issue.
Record t := mk {
  ID : string;
  Message : string;
  Severity : Severity;
  AffectedFilePath : string;
  Product : Product;
  IssueType : Z
}.
End Issue.

#[global] Instance Issue_eq_dec : EqDecision Issue.t.
Proof. solve_decision. Defined.

(** [vulnmap.ScanData].  [Err] is Go's [error] ([None] is [nil]);
    [SeverityCount] is a Go map, [None] when it is [nil]. *)
Module ScanData.
Record t := mk {
  Product : Product;
  Issues : list Issue.t;
  Err : option string;
  DurationMs : Z;
  TimestampFinished : Z;
  SeverityCount : option (gmap string SeverityCount.t)
}.
Definition withSeverityCount (d : t) (m : gmap string SeverityCount.t) : t :=
  mk (Product d) (Issues d) (Err d) (DurationMs d) (TimestampFinished d) (Some m).
(** The counters as a map: reading a [nil] map in Go reads the empty map. *)
Definition counts (d : t) : gmap string SeverityCount.t :=
  default ∅ (SeverityCount d).
End ScanData.

(** The part of [config.Config] the folder reads. *)
Module Config.
Record t := mk {
  IsTrustedFolderFeatureEnabled : bool;
  TrustedFolders : list string;
  FilterSeverity : SeverityFilter.t;
  DisplayableIssueTypes : gmap string bool
}.
End Config.

Inductive FolderStatus := Unscanned | Scanned.

#[global] Instance FolderStatus_eq_dec : EqDecision FolderStatus.
Proof. solve_decision. Defined.

(** [Folder]: the mutable fields and the cache.  A cache entry is a Go slice;
    every [Store] in this file stores a non-nil slice ([[]vulnmap.Issue{}] or
    an [append] to it), so [Load] yields [nil] exactly when the key is absent:
    [None] is the [nil] slice and [Some l] a stored one, possibly empty. *)
Module Folder.
Record t := mk {
  path : string;
  name : string;
  status : FolderStatus;
  documentDiagnosticCache : gmap string (list Issue.t)
}.
Definition withStatus (f : t) (s : FolderStatus) : t :=
  mk (path f) (name f) s (documentDiagnosticCache f).
Definition withCache (f : t) (c : gmap string (list Issue.t)) : t :=
  mk (path f) (name f) (status f) c.
End Folder.

(** ** Calls to the collaborators *)

Inductive Event :=
  (** [f.scanner.Scan(ctx, path, f.processResults, f.path)] *)
  | ScannerScan (path folderPath : string)
  (** [f.notifier.Send(lsp.PublishDiagnosticsParams{...})] for a file *)
  | NotifierSendDiagnostics (path : string) (issues : list Issue.t)
  (** [f.hoverService.Channel() <- converter.ToHoversDocument(path, issues)] *)
  | HoverChannelSend (path : string) (issues : list Issue.t)
  (** [f.scanNotifier.SendSuccess(product, f.Path(), issues)] *)
  | ScanNotifierSendSuccess (product : Product) (folderPath : string) (issues : list Issue.t)
  (** [f.scanNotifier.SendSuccessForAllProducts(f.Path(), issues)] *)
  | ScanNotifierSendSuccessForAllProducts (folderPath : string) (issues : list Issue.t)
  (** [f.scanNotifier.SendError(product, f.path)] *)
  | ScanNotifierSendError (product : Product) (folderPath : string)
  (** [analytics.SendAnalyticsToAPI] with the scan-done event of a product *)
  | AnalyticsSend (product : Product) (uniqueIssueCount : SeverityCount.t)
      (durationMs timestampFinished : Z).

#[global] Instance Event_eq_dec : EqDecision Event.
Proof. solve_decision. Defined.

(** ** Iteration over maps

    Go leaves the order of [range] over a map unspecified, and so does
    [xsync.MapOf.Range].  Every loop over a map in the folder takes its
    order from [range_order], one order per loop; all that is known of it
    is that it visits every entry once. *)
Inductive RangeSite :=
  | InCreateDedupMap | InFilterCachedDiagnostics | InSendDiagnostics
  | InSendScanResults | InSendHovers | InClearDiagnosticsByIssueType.

Class MapRange := {
  range_order : RangeSite → ∀ {V : Type}, gmap string V → list (string * V);
  range_order_perm : ∀ s V (m : gmap string V), range_order s m ≡ₚ map_to_list m
}.

(** One such order: the one of [map_to_list]. *)
Definition canonicalRange : MapRange :=
  {| range_order := λ _ V m, map_to_list m;
     range_order_perm := λ _ V m, reflexivity (map_to_list m) |}.

(** ** The folder monad: state of the folder and trace of calls *)

Definition M (A : Type) : Type := Folder.t → A * Folder.t * list Event.

#[global] Instance M_ret : MRet M := λ A a f, (a, f, []).
#[global] Instance M_bind : MBind M := λ A B k m f,
  let '(a, f1, t1) := m f in
  let '(b, f2, t2) := k a f1 in
  (b, f2, t1 ++ t2).

Definition getFolder : M Folder.t := λ f, (f, f, []).
Definition putFolder (f' : Folder.t) : M unit := λ _, (tt, f', []).
Definition emit (e : Event) : M unit := λ f, (tt, f, [e]).

Definition result {A} (m : M A) (f : Folder.t) : A := (m f).1.1.
Definition exec {A} (m : M A) (f : Folder.t) : Folder.t := (m f).1.2.
Definition trace {A} (m : M A) (f : Folder.t) : list Event := (m f).2.

(** [for _, x := range l { body }] *)
Fixpoint forEach {A} (l : list A) (body : A → M unit) : M unit :=
  match l with
  | [] => mret tt
  | x :: l' => body x ;; forEach l' body
  end.

(** The same loop with a local variable [s] updated by the body. *)
Fixpoint forEachWith {A S} (l : list A) (s : S) (body : S → A → M S) : M S :=
  match l with
  | [] => mret s
  | x :: l' => s' ← body s x; forEachWith l' s' body
  end.

(** [documentDiagnosticCache.Load], [.Store], [.Range] *)
Definition cacheLoad (key : string) : M (option (list Issue.t)) :=
  f ← getFolder; mret (Folder.documentDiagnosticCache f !! key).
Definition cacheStore (key : string) (issues : list Issue.t) : M unit :=
  f ← getFolder;
  putFolder (Folder.withCache f (<[key := issues]> (Folder.documentDiagnosticCache f))).
Definition cacheRange `{MapRange} (s : RangeSite) : M (list (string * list Issue.t)) :=
  f ← getFolder; mret (range_order s (Folder.documentDiagnosticCache f)).

(** ** The folder's operations *)

Section WithCollaborators.
Context `{MapRange}.

(** [vulnmap.Issue.GetFilterableIssueType], declared outside the sources:
    the folder only calls it. *)
Variable GetFilterableIssueType : Issue.t → FilterableIssueType.

(** [config.CurrentConfig()], read wherever the code reads it. *)
Variable config : Config.t.

(** The scanner behind [f.scanner.Scan(ctx, path, processResults, folderPath)]:
    the scan data it hands to the callback, in the order of its calls. *)
Variable scanner : string → string → list ScanData.t.

(** [strings.TrimSuffix(path, "/")] *)
Definition trimSuffixSlash (path : string) : string :=
  let n := String.length path in
  if String.eqb (substring (n - 1) 1 path) "/" then substring 0 (n - 1) path else path.

Definition NewFolder (path name : string) : Folder.t :=
  Folder.mk (trimSuffixSlash path) name Unscanned ∅.

Definition IsScanned : M bool :=
  f ← getFolder; mret (bool_decide (Folder.status f = Scanned)).

Definition SetStatus (status : FolderStatus) : M unit :=
  f ← getFolder; putFolder (Folder.withStatus f status).

Definition ClearScannedStatus : M unit := SetStatus Unscanned.

(** *** Trust gate *)

(** The loop of [IsTrusted] over [TrustedFolders()], with its early return;
    [strings.HasPrefix(f.path, path)] is [String.prefix path f.path]. *)
Fixpoint hasTrustedPrefix (folderPath : string) (trustedFolders : list string) : bool :=
  match trustedFolders with
  | [] => false
  | path :: rest =>
      if String.prefix path folderPath then true else hasTrustedPrefix folderPath rest
  end.

Definition IsTrusted (f : Folder.t) : bool :=
  if negb (Config.IsTrustedFolderFeatureEnabled config) then true
  else hasTrustedPrefix (Folder.path f) (Config.TrustedFolders config).

(** *** Filter *)

(** The [switch] of [isVisibleSeverity] has one case per severity; its final
    [return false] is for no severity. *)
Definition isVisibleSeverity (issue : Issue.t) : bool :=
  match Issue.Severity issue with
  | Critical => SeverityFilter.Critical (Config.FilterSeverity config)
  | High => SeverityFilter.High (Config.FilterSeverity config)
  | Medium => SeverityFilter.Medium (Config.FilterSeverity config)
  | Low => SeverityFilter.Low (Config.FilterSeverity config)
  end.

(** A missing key of a Go [map[K]bool] reads [false]. *)
Definition lookupBool (m : gmap string bool) (k : string) : bool :=
  default false (m !! k).

Definition FilterIssues (issues : list Issue.t)
    (supportedIssueTypes : gmap string bool) : list Issue.t :=
  fold_left
    (λ filteredIssues issue,
       if isVisibleSeverity issue
          && lookupBool supportedIssueTypes (GetFilterableIssueType issue)
       then filteredIssues ++ [issue]
       else filteredIssues)
    issues [].

Definition filterCachedDiagnostics : M (gmap string (list Issue.t)) :=
  f ← getFolder;
  let issuesByFile : gmap string (list Issue.t) := ∅ in
  if decide (size (Folder.documentDiagnosticCache f) = 0%nat) then mret issuesByFile
  else
    let supportedIssueTypes := Config.DisplayableIssueTypes config in
    entries ← cacheRange InFilterCachedDiagnostics;
    mret (fold_left
            (λ issuesByFile '(filePath, issues),
               <[filePath := FilterIssues issues supportedIssueTypes]> issuesByFile)
            entries issuesByFile).

(** *** Publisher *)

Definition sendDiagnosticsForFile (path : string) (issues : list Issue.t) : M unit :=
  emit (NotifierSendDiagnostics path issues).

Definition sendDiagnostics (issuesByFile : gmap string (list Issue.t)) : M unit :=
  forEach (range_order InSendDiagnostics issuesByFile)
    (λ '(path, issues), sendDiagnosticsForFile path issues).

Definition sendHoversForFile (path : string) (issues : list Issue.t) : M unit :=
  emit (HoverChannelSend path issues).

Definition sendHovers (issuesByFile : gmap string (list Issue.t)) : M unit :=
  forEach (range_order InSendHovers issuesByFile)
    (λ '(path, issues), sendHoversForFile path issues).

Definition sendScanResults (processedProduct : Product)
    (issuesByFile : gmap string (list Issue.t)) : M unit :=
  let productIssues :=
    fold_left (λ productIssues '(_, issues), productIssues ++ issues)
      (range_order InSendScanResults issuesByFile) [] in
  f ← getFolder;
  if decide (processedProduct ≠ "")
  then emit (ScanNotifierSendSuccess processedProduct (Folder.path f) productIssues)
  else emit (ScanNotifierSendSuccessForAllProducts (Folder.path f) productIssues).

Definition publishDiagnostics (product : Product)
    (issuesByFile : gmap string (list Issue.t)) : M unit :=
  sendDiagnostics issuesByFile ;;
  sendScanResults product issuesByFile ;;
  sendHovers issuesByFile.

Definition FilterAndPublishCachedDiagnostics (product : Product) : M unit :=
  issuesByFile ← filterCachedDiagnostics;
  publishDiagnostics product issuesByFile.

(** *** Dedup *)

Definition getUniqueIssueID (issue : Issue.t) : string :=
  Issue.ID issue +:+ "|" +:+ Issue.AffectedFilePath issue.

Definition createDedupMap : M (gmap string bool) :=
  entries ← cacheRange InCreateDedupMap;
  mret (fold_left
          (λ dedupMap '(_, issues),
             fold_left
               (λ dedupMap issue, <[getUniqueIssueID issue := true]> dedupMap)
               issues dedupMap)
          entries (∅ : gmap string bool)).

(** *** Severity counters *)

Definition initializeSeverityCountForProduct (scanData : ScanData.t)
    (productType : Product) : ScanData.t :=
  let severityCount :=
    match ScanData.SeverityCount scanData with
    | None => ∅
    | Some m => m
    end in
  let productType := if decide (productType = "") then "unknown" else productType in
  match severityCount !! productType with
  | None =>
      ScanData.withSeverityCount scanData (<[productType := SeverityCount.zero]> severityCount)
  | Some _ => ScanData.withSeverityCount scanData severityCount
  end.

Definition incrementSeverity (severity : Severity) (c : SeverityCount.t) : SeverityCount.t :=
  match severity with
  | Critical =>
      SeverityCount.mk (int_incr (SeverityCount.Critical c)) (SeverityCount.High c)
        (SeverityCount.Medium c) (SeverityCount.Low c)
  | High =>
      SeverityCount.mk (SeverityCount.Critical c) (int_incr (SeverityCount.High c))
        (SeverityCount.Medium c) (SeverityCount.Low c)
  | Medium =>
      SeverityCount.mk (SeverityCount.Critical c) (SeverityCount.High c)
        (int_incr (SeverityCount.Medium c)) (SeverityCount.Low c)
  | Low =>
      SeverityCount.mk (SeverityCount.Critical c) (SeverityCount.High c)
        (SeverityCount.Medium c) (int_incr (SeverityCount.Low c))
  end.

(** After [initializeSeverityCountForProduct] the map is not [nil], so the
    final assignment into it cannot panic. *)
Definition incrementSeverityCount (scanData : ScanData.t) (issue : Issue.t) : ScanData.t :=
  let issueProduct :=
    if decide (Issue.Product issue = "") then "unknown" else Issue.Product issue in
  let scanData := initializeSeverityCountForProduct scanData issueProduct in
  let severityCount :=
    match ScanData.counts scanData !! issueProduct with
    | Some c => c
    | None => SeverityCount.zero
    end in
  let severityCount := incrementSeverity (Issue.Severity issue) severityCount in
  ScanData.withSeverityCount scanData (<[issueProduct := severityCount]> (ScanData.counts scanData)).

(** [sendAnalytics]: the scan-done event carries the product, its counters,
    the duration and the timestamp; the other attributes come from the
    configuration and the runtime. *)
Definition sendAnalytics (data : ScanData.t) : M ScanData.t :=
  let data := initializeSeverityCountForProduct data (ScanData.Product data) in
  if decide (ScanData.Product data = "") then mret data
  else if ScanData.Err data is Some _ then mret data
  else
    emit (AnalyticsSend (ScanData.Product data)
            (default SeverityCount.zero (ScanData.counts data !! ScanData.Product data))
            (ScanData.DurationMs data) (ScanData.TimestampFinished data)) ;;
    mret data.

(** *** Processing scan results *)

(** The body of the loop of [processResults] over [scanData.Issues]. *)
Definition processIssue (dedupMap : gmap string bool) (scanData : ScanData.t)
    (issue : Issue.t) : M ScanData.t :=
  cached ← cacheLoad (Issue.AffectedFilePath issue);
  let cachedIssues := match cached with None => [] | Some l => l end in
  if negb (lookupBool dedupMap (getUniqueIssueID issue))
  then
    cacheStore (Issue.AffectedFilePath issue) (cachedIssues ++ [issue]) ;;
    mret (incrementSeverityCount scanData issue)
  else
    cacheStore (Issue.AffectedFilePath issue) cachedIssues ;;
    mret scanData.

(** [processResults] up to the end of its loop: the dedup map, then the
    update of the cache and of the counters. *)
Definition updateDiagnosticCache (scanData : ScanData.t) : M ScanData.t :=
  dedupMap ← createDedupMap;
  forEachWith (ScanData.Issues scanData) scanData (processIssue dedupMap).

Definition processResults (scanData : ScanData.t) : M unit :=
  if ScanData.Err scanData is Some _ then
    f ← getFolder;
    emit (ScanNotifierSendError (ScanData.Product scanData) (Folder.path f))
  else
    scanData ← updateDiagnosticCache scanData;
    scanData ← sendAnalytics scanData;
    FilterAndPublishCachedDiagnostics (ScanData.Product scanData).

(** *** Scanning *)

Definition DocumentDiagnosticsFromCache (file : string) : M (option (list Issue.t)) :=
  cacheLoad file.

(** [vulnmap.ScanData{Issues: issuesSlice}]: every other field has its zero
    value. *)
Definition cachedScanData (issuesSlice : list Issue.t) : ScanData.t :=
  ScanData.mk "" issuesSlice None 0 0 None.

Definition scan (path : string) : M unit :=
  f ← getFolder;
  if negb (IsTrusted f) then mret tt
  else
    issuesSlice ← DocumentDiagnosticsFromCache path;
    match issuesSlice with
    | Some issuesSlice => processResults (cachedScanData issuesSlice)
    | None =>
        emit (ScannerScan path (Folder.path f)) ;;
        forEach (scanner path (Folder.path f)) processResults
    end.

Definition ScanFolder : M unit :=
  f ← getFolder;
  scan (Folder.path f) ;;
  SetStatus Scanned.

Definition ScanFile (path : string) : M unit := scan path.

(** *** Clearing by issue type *)

Definition ClearDiagnosticsByIssueType (removedType : FilterableIssueType) : M unit :=
  entries ← cacheRange InClearDiagnosticsByIssueType;
  forEach entries
    (λ '(filePath, previousIssues),
       let newIssues :=
         fold_left
           (λ newIssues issue,
              if decide (GetFilterableIssueType issue ≠ removedType)
              then newIssues ++ [issue] else newIssues)
           previousIssues [] in
       if decide (length previousIssues ≠ length newIssues)
       then
         cacheStore filePath newIssues ;;
         sendDiagnosticsForFile filePath newIssues ;;
         sendHoversForFile filePath newIssues
       else mret tt).

End WithCollaborators.

(** ** Vocabulary of the statements *)

(** All issues of a cache, file after file. *)
Definition cacheIssues (cache : gmap string (list Issue.t)) : list Issue.t :=
  map_to_list cache ≫= snd.

(** The unique identities of the cached issues, with repetitions. *)
Definition cachedIDs (cache : gmap string (list Issue.t)) : list string :=
  getUniqueIssueID <$> cacheIssues cache.

(** The number of cached issues that carry a unique identity. *)
Definition instances (uniqueID : string) (cache : gmap string (list Issue.t)) : nat :=
  length (filter (λ issue, getUniqueIssueID issue = uniqueID) (cacheIssues cache)).

(** No two cached issues share a unique identity. *)
Definition deduplicated (cache : gmap string (list Issue.t)) : Prop :=
  NoDup (cachedIDs cache).

#[global] Instance deduplicated_dec cache : Decision (deduplicated cache).
Proof. unfold deduplicated. apply _. Defined.

(** The dedup check of [processResults]: [!dedupMap[f.getUniqueIssueID(issue)]]. *)
Definition accepts (dedupMap : gmap string bool) (issue : Issue.t) : bool :=
  negb (lookupBool dedupMap (getUniqueIssueID issue)).

(** [data.SeverityCount[product]]: a missing key reads the zero value. *)
Definition countFor (data : ScanData.t) (product : Product) : SeverityCount.t :=
  default SeverityCount.zero (ScanData.counts data !! product).

(** The counter of a severity. *)
Definition counter (severity : Severity) (c : SeverityCount.t) : Z :=
  match severity with
  | Critical => SeverityCount.Critical c
  | High => SeverityCount.High c
  | Medium => SeverityCount.Medium c
  | Low => SeverityCount.Low c
  end.

(** An issue is counted under its product, and under "unknown" when it has
    none. *)
Definition countedUnder (product : Product) (severity : Severity) (issue : Issue.t) : Prop :=
  Issue.Severity issue = severity
  ∧ (Issue.Product issue = product ∧ product ≠ ""
     ∨ Issue.Product issue = "" ∧ product = "unknown").

#[global] Instance countedUnder_dec product severity issue :
  Decision (countedUnder product severity issue).
Proof. unfold countedUnder. apply _. Defined.

(** The two effects of one turn of the loop of [processResults], on the
    cache and on the counters. *)
Definition storeIssue (dedupMap : gmap string bool) (cache : gmap string (list Issue.t))
    (issue : Issue.t) : gmap string (list Issue.t) :=
  <[Issue.AffectedFilePath issue :=
      match cache !! Issue.AffectedFilePath issue with None => [] | Some l => l end
      ++ (if accepts dedupMap issue then [issue] else [])]> cache.

Definition countIssue (dedupMap : gmap string bool) (scanData : ScanData.t)
    (issue : Issue.t) : ScanData.t :=
  if accepts dedupMap issue then incrementSeverityCount scanData issue else scanData.

(** The filter predicate of [FilterIssues]. *)
Definition keeps (GetFilterableIssueType : Issue.t → FilterableIssueType)
    (config : Config.t) (supportedIssueTypes : gmap string bool) (issue : Issue.t) : bool :=
  isVisibleSeverity config issue
  && lookupBool supportedIssueTypes (GetFilterableIssueType issue).

(** The notifications of a publish: for a file, and for the folder. *)
Definition diagnosticsOf (entry : string * list Issue.t) : Event :=
  NotifierSendDiagnostics entry.1 entry.2.
Definition hoverOf (entry : string * list Issue.t) : Event :=
  HoverChannelSend entry.1 entry.2.
Definition scanResultOf (product : Product) (folderPath : string)
    (issues : list Issue.t) : Event :=
  if decide (product ≠ "") then ScanNotifierSendSuccess product folderPath issues
  else ScanNotifierSendSuccessForAllProducts folderPath issues.

(** The notifications of [ClearDiagnosticsByIssueType] for a cache entry:
    diagnostics and hover with the remaining issues when some were removed,
    none otherwise. *)
Definition republished (GetFilterableIssueType : Issue.t → FilterableIssueType)
    (removedType : FilterableIssueType) (entry : string * list Issue.t) : list Event :=
  let newIssues := filter (λ issue, GetFilterableIssueType issue ≠ removedType) entry.2 in
  if decide (length entry.2 ≠ length newIssues)
  then [NotifierSendDiagnostics entry.1 newIssues; HoverChannelSend entry.1 newIssues]
  else [].

(** The kinds of notification of a publish. *)
Definition isDiagnostics (e : Event) : bool :=
  match e with NotifierSendDiagnostics _ _ => true | _ => false end.
Definition isHover (e : Event) : bool :=
  match e with HoverChannelSend _ _ => true | _ => false end.
Definition isScanResult (e : Event) : bool :=
  match e with
  | ScanNotifierSendSuccess _ _ _ | ScanNotifierSendSuccessForAllProducts _ _ => true
  | _ => false
  end.
Definition isScannerScan (e : Event) : bool :=
  match e with ScannerScan _ _ => true | _ => false end.
Definition isSendSuccess (e : Event) : bool :=
  match e with ScanNotifierSendSuccess _ _ _ => true | _ => false end.

(** The order of a publish that has the scan result last: the diagnostics
    of all files, then the hovers of all files, then one scan result. *)
Definition scanResultLast (t : list Event) : Prop :=
  ∃ diagnostics hovers scanResult,
    t = diagnostics ++ hovers ++ [scanResult]
    ∧ Forall (λ e, isDiagnostics e = true) diagnostics
    ∧ Forall (λ e, isHover e = true) hovers
    ∧ isScanResult scanResult = true.

(** ** Sample data *)

Module Sample.
(** Issue types are told apart by product. *)
Definition filterableType (issue : Issue.t) : FilterableIssueType := Issue.Product issue.

Definition config : Config.t :=
  Config.mk true ["/home/user/proj"] (SeverityFilter.mk true true false false)
    {[ "oss" := true; "code" := true ]}.

Definition critical : Issue.t := Issue.mk "V1" "first" Critical "/home/user/proj/go.mod" "oss" 0.
Definition high : Issue.t := Issue.mk "V2" "second" High "/home/user/proj/go.mod" "oss" 0.
Definition medium : Issue.t := Issue.mk "V3" "third" Medium "/home/user/proj/main.go" "code" 1.
Definition low : Issue.t := Issue.mk "V4" "fourth" Low "/home/user/proj/main.go" "" 1.

(** The finding [critical] once more, reported with another message. *)
Definition criticalAgain : Issue.t :=
  Issue.mk "V1" "first, again" Critical "/home/user/proj/go.mod" "oss" 0.

Definition batch (issues : list Issue.t) : ScanData.t :=
  ScanData.mk "oss" issues None 12 1700000000 None.

Definition failed : ScanData.t :=
  ScanData.mk "oss" [] (Some "scan failed") 12 1700000000 None.

(** A scanner that reports one batch for every path. *)
Definition scanner (path folderPath : string) : list ScanData.t := [batch [critical; high]].

Definition trusted : Folder.t := NewFolder "/home/user/proj/" "proj".
Definition untrusted : Folder.t := NewFolder "/home/user/other" "other".

(** The trusted folder after a first scan. *)
Definition scanned : Folder.t :=
  exec (@ScanFolder canonicalRange filterableType config scanner) trusted.
End Sample.

(** ** The clearing operations of the folder *)

(** The calls of the clearing operations: the scanner's [ClearInlineValues]
    and [f.notifier.Send] with the literal empty list of diagnostics
    ([[]lsp.Diagnostic{}], which no conversion of issues produces). *)
Inductive Call :=
  | ScannerClearInlineValues (filePath : string)
  | NotifierSendEmptyDiagnostics (filePath : string).

#[global] Instance Call_eq_dec : EqDecision Call.
Proof. solve_decision. Defined.

(** The order of one [Range] over the cache: some order that visits every
    entry once. *)
Record RangeOrder := {
  visit : ∀ {V : Type}, gmap string V → list (string * V);
  visit_perm : ∀ V (m : gmap string V), visit m ≡ₚ map_to_list m
}.

Definition canonicalOrder : RangeOrder :=
  {| visit := λ V m, map_to_list m;
     visit_perm := λ V m, reflexivity (map_to_list m) |}.

(** [strings.Contains(s, substr)]: [substr] starts at some position of [s]. *)
Fixpoint contains (s substr : string) : bool :=
  if String.prefix substr s then true
  else match s with
       | EmptyString => false
       | String _ s' => contains s' substr
       end.

Definition AllIssuesFor (filePath : string) : M (option (list Issue.t)) :=
  DocumentDiagnosticsFromCache filePath.

(** [ClearDiagnosticsFromFile]; [inlineValueProvider] tells whether the
    scanner of the folder is a [vulnmap.InlineValueProvider]. *)
Definition ClearDiagnosticsFromFile (inlineValueProvider : bool) (filePath : string)
    (f : Folder.t) : Folder.t * list Call :=
  let f := Folder.withCache f (delete filePath (Folder.documentDiagnosticCache f)) in
  let inlineValues :=
    if inlineValueProvider then [ScannerClearInlineValues filePath] else [] in
  (exec ClearScannedStatus f, inlineValues ++ [NotifierSendEmptyDiagnostics filePath]).

(** [ClearDiagnosticsFromPathRecursively]: the [Range] visits the entries
    the cache has when it starts; the callback deletes the visited key. *)
Definition ClearDiagnosticsFromPathRecursively (order : RangeOrder)
    (inlineValueProvider : bool) (removedPath : string) (f : Folder.t)
    : Folder.t * list Call :=
  fold_left
    (λ '(f, calls) '(key, _),
       if contains key removedPath
       then
         let '(f', calls') := ClearDiagnosticsFromFile inlineValueProvider key f in
         (f', calls ++ calls')
       else (f, calls))
    (visit order (Folder.documentDiagnosticCache f)) (f, []).

(** [ClearDiagnostics] *)
Definition ClearDiagnostics (order : RangeOrder) (f : Folder.t) : Folder.t * list Call :=
  fold_left
    (λ '(f, calls) '(key, _),
       (Folder.withCache f (delete key (Folder.documentDiagnosticCache f)),
        calls ++ [NotifierSendEmptyDiagnostics key]))
    (visit order (Folder.documentDiagnosticCache f)) (f, []).

(** Every cached issue lies under its own [AffectedFilePath]. *)
Definition keyed (cache : gmap string (list Issue.t)) : Prop :=
  ∀ key issues issue,
    cache !! key = Some issues → issue ∈ issues → Issue.AffectedFilePath issue = key.

(** The issues of a batch that are reported for a file. *)
Definition reportedFor (key : string) (issues : list Issue.t) : list Issue.t :=
  List.filter (λ issue, bool_decide (Issue.AffectedFilePath issue = key)) issues.

(** A folder after scans: same path, name and status, and every cache entry
    is the old one with issues added at its end. *)
Definition extends (f f' : Folder.t) : Prop :=
  Folder.path f' = Folder.path f
  ∧ Folder.name f' = Folder.name f
  ∧ Folder.status f' = Folder.status f
  ∧ ∀ key old, Folder.documentDiagnosticCache f !! key = Some old →
      ∃ added, Folder.documentDiagnosticCache f' !! key = Some (old ++ added).

(** A cache after clearing: every entry comes from an entry of the same file
    by striking out issues. *)
Definition shrinks (cache cache' : gmap string (list Issue.t)) : Prop :=
  ∀ key issues', cache' !! key = Some issues' →
    ∃ issues, cache !! key = Some issues ∧ issues' `sublist_of` issues.

(** The calls of [ClearDiagnosticsFromPathRecursively] at one cache entry. *)
Definition clearCallsFor (inlineValueProvider : bool) (removedPath : string)
    (entry : string * list Issue.t) : list Call :=
  if contains entry.1 removedPath
  then (if inlineValueProvider then [ScannerClearInlineValues entry.1] else [])
       ++ [NotifierSendEmptyDiagnostics entry.1]
  else [].

(** More sample data: a scanned folder with two cached files. *)
Module Sample2.
Definition twoFiles : Folder.t :=
  Folder.mk "/home/user/proj" "proj" Scanned
    {[ "/home/user/proj/go.mod" := [Sample.critical; Sample.high];
       "/home/user/proj/main.go" := [Sample.medium; Sample.low] ]}.
End Sample2.

(** ** Package [oss]: from vulnerabilities to issues *)

(** The outcome of a call that may panic. *)
Inductive outcome (A : Type) :=
  | Returned (a : A)
  | Panicked.
Arguments Returned {A} a.
Arguments Panicked {A}.

(** [vulnmap.Severity], for where a field is named [Severity] too. *)
Abbreviation vulnmapSeverity := Severity (only parsing).

Module oss.
(** [ossIssue], declared outside the sources, with the fields read here. *)
Record ossIssue := mkOssIssue {
  Id : string;
  PackageName : string;
  Version : string;
  Severity : string;
  FixedIn : list string
}.

#[global] Instance ossIssue_eq_dec : EqDecision ossIssue.
Proof. solve_decision. Defined.

Definition issuesSeverity : gmap string vulnmapSeverity :=
  {[ "critical" := Critical; "high" := High; "low" := Low; "medium" := Medium ]}.

Definition ToIssueSeverity (i : ossIssue) : vulnmapSeverity :=
  match issuesSeverity !! Severity i with
  | Some sev => sev
  | None => Low
  end.

Definition createFixedIn (i : ossIssue) : string :=
  let f := "" in
  match FixedIn i with
  | [] => f +:+ "Not Fixed"
  | first :: rest =>
      fold_left (λ f version, f +:+ (", " +:+ version)) rest (f +:+ ("@" +:+ first))
  end.

Section Convert.
(** [product.ProductOpenSource] and [vulnmap.DependencyVulnerability] *)
Variable ProductOpenSource : Product.
Variable DependencyVulnerability : Z.

(** What [findRange] and [toIssue] compute besides the fields below, seen
    through the message: the title goes through the markdown renderer, the
    resolution through a type assertion on the upgrade path, the code
    actions through the URL parser and the learn service; [None] when one
    of them panics. *)
Variable rendered : string → ossIssue → option string.

(** [toIssue], on the fields of [Issue.t]. *)
Definition toIssue (affectedFilePath : string) (issue : ossIssue) : option Issue.t :=
  match rendered affectedFilePath issue with
  | None => None
  | Some message =>
      Some (Issue.mk (Id issue) message (ToIssueSeverity issue) affectedFilePath
              ProductOpenSource DependencyVulnerability)
  end.

(** The loop of [convertScanResultToIssues] over [res.Vulnerabilities], with
    its three variables; [packageIssueCache] is the map of the caller, so its
    state is returned also after a panic. *)
Fixpoint convertLoop (path : string) (vulnerabilities : list ossIssue)
    (issues : list Issue.t) (duplicateCheckMap : gmap string bool)
    (packageIssueCache : gmap string (list Issue.t))
    : outcome (list Issue.t) * gmap string (list Issue.t) :=
  match vulnerabilities with
  | [] => (Returned issues, packageIssueCache)
  | issue :: rest =>
      let packageKey := PackageName issue +:+ "@" +:+ Version issue in
      let duplicateKey := Id issue +:+ "|" +:+ PackageName issue in
      if lookupBool duplicateCheckMap duplicateKey
      then convertLoop path rest issues duplicateCheckMap packageIssueCache
      else
        match toIssue path issue with
        | None => (Panicked, packageIssueCache)
        | Some vulnmapIssue =>
            convertLoop path rest (issues ++ [vulnmapIssue])
              (<[duplicateKey := true]> duplicateCheckMap)
              (<[packageKey :=
                   match packageIssueCache !! packageKey with
                   | None => []
                   | Some l => l
                   end ++ [vulnmapIssue]]> packageIssueCache)
        end
  end.

Definition convertScanResultToIssues (vulnerabilities : list ossIssue) (path : string)
    (packageIssueCache : gmap string (list Issue.t))
    : outcome (list Issue.t) * gmap string (list Issue.t) :=
  convertLoop path vulnerabilities [] ∅ packageIssueCache.
End Convert.

(** The key of the duplicate check. *)
Definition duplicateKey (issue : ossIssue) : string :=
  Id issue +:+ "|" +:+ PackageName issue.

(** The vulnerabilities that are the first with their key, after the keys
    in [seen]. *)
Fixpoint firstOfKey (seen : list string) (vulnerabilities : list ossIssue) : list ossIssue :=
  match vulnerabilities with
  | [] => []
  | issue :: rest =>
      if bool_decide (duplicateKey issue ∈ seen) then firstOfKey seen rest
      else issue :: firstOfKey (duplicateKey issue :: seen) rest
  end.
End oss.

(** ** Test doubles: the mock notifier and the fake authentication provider *)

Module MockNotifier.
Section Mock.
(** The payloads of [Send(msg any)]. *)
Variable Msg : Type.
(** [sglsp.MTError] *)
Variable MTError : Z.

(** What [sentMessages] holds: [sglsp.ShowMessageParams], a payload, or the
    [lsp.PublishDiagnosticsParams] of an error diagnostic. *)
Inductive sent :=
  | ShowMessageParams (messageType : Z) (message : string)
  | Payload (msg : Msg)
  | ErrorDiagnostic (path : string) (message : string).

Record t := mk {
  sendShowMessageCounter : Z;
  sendCounter : Z;
  sendErrorCounter : Z;
  sendErrorDiagnosticCounter : Z;
  sentMessages : list sent
}.

Definition NewMockNotifier : t := mk 0 0 0 0 [].

Definition SendShowMessage (messageType : Z) (message : string) (m : t) : t :=
  mk (int_incr (sendShowMessageCounter m)) (sendCounter m) (sendErrorCounter m)
    (sendErrorDiagnosticCounter m)
    (sentMessages m ++ [ShowMessageParams messageType message]).

Definition Send (msg : Msg) (m : t) : t :=
  mk (sendShowMessageCounter m) (int_incr (sendCounter m)) (sendErrorCounter m)
    (sendErrorDiagnosticCounter m) (sentMessages m ++ [Payload msg]).

(** [fmt.Sprintf] with the verb v prints a [nil] error as <nil>. *)
Definition SendError (err : option string) (m : t) : t :=
  mk (sendShowMessageCounter m) (sendCounter m) (int_incr (sendErrorCounter m))
    (sendErrorDiagnosticCounter m)
    (sentMessages m
     ++ [ShowMessageParams MTError
           ("Vulnmap encountered an error: "
            +:+ match err with Some e => e | None => "<nil>" end)]).

(** [err.Error()] panics for a [nil] error, after the counter went up. *)
Definition SendErrorDiagnostic (path : string) (err : option string) (m : t) : outcome t * t :=
  let m :=
    mk (sendShowMessageCounter m) (sendCounter m) (sendErrorCounter m)
      (int_incr (sendErrorDiagnosticCounter m)) (sentMessages m) in
  match err with
  | None => (Panicked, m)
  | Some e =>
      let m :=
        mk (sendShowMessageCounter m) (sendCounter m) (sendErrorCounter m)
          (sendErrorDiagnosticCounter m) (sentMessages m ++ [ErrorDiagnostic path e]) in
      (Returned m, m)
  end.

(** The calls of a test on the notifier. *)
Inductive call :=
  | CallSendShowMessage (messageType : Z) (message : string)
  | CallSend (msg : Msg)
  | CallSendError (err : option string)
  | CallSendErrorDiagnostic (path : string) (err : option string).

(** A sequence of calls, up to the first panic. *)
Fixpoint calls (cs : list call) (m : t) : outcome t * t :=
  match cs with
  | [] => (Returned m, m)
  | CallSendShowMessage messageType message :: rest =>
      calls rest (SendShowMessage messageType message m)
  | CallSend msg :: rest => calls rest (Send msg m)
  | CallSendError err :: rest => calls rest (SendError err m)
  | CallSendErrorDiagnostic path err :: rest =>
      match SendErrorDiagnostic path err m with
      | (Returned m', _) => calls rest m'
      | (Panicked, m') => (Panicked, m')
      end
  end.

(** The message a call leaves in [sentMessages]. *)
Definition sentBy (c : call) : option sent :=
  match c with
  | CallSendShowMessage messageType message => Some (ShowMessageParams messageType message)
  | CallSend msg => Some (Payload msg)
  | CallSendError err =>
      Some (ShowMessageParams MTError
              ("Vulnmap encountered an error: "
               +:+ match err with Some e => e | None => "<nil>" end))
  | CallSendErrorDiagnostic path err => ErrorDiagnostic path <$> err
  end.

Definition isSendShowMessage (c : call) : bool :=
  match c with CallSendShowMessage _ _ => true | _ => false end.
Definition isSend (c : call) : bool :=
  match c with CallSend _ => true | _ => false end.
Definition isSendError (c : call) : bool :=
  match c with CallSendError _ => true | _ => false end.
Definition isSendErrorDiagnostic (c : call) : bool :=
  match c with CallSendErrorDiagnostic _ _ => true | _ => false end.
End Mock.
End MockNotifier.

Module FakeAuthenticationProvider.
Record t := mk {
  ExpectedAuthURL : string;
  IsAuthenticated : bool;
  authURL : string
}.

(** The function returned by [GetCheckAuthenticationFunction], as its
    result: a string and an error. *)
Definition GetCheckAuthenticationFunction (a : t) : string * option string :=
  if IsAuthenticated a then ("fake auth successful", None)
  else ("", Some "Authentication failed. Please update your token.").

Definition Authenticate (a : t) : t * (string * option string) :=
  (mk (ExpectedAuthURL a) true (authURL a), ("e448dc1a-26c6-11ed-a261-0242ac120002", None)).

Definition ClearAuthentication (a : t) : t * option string :=
  (mk (ExpectedAuthURL a) false (authURL a), None).

Definition AuthURL (a : t) : string := ExpectedAuthURL a.

Definition SetAuthURL (url : string) (a : t) : t :=
  mk (ExpectedAuthURL a) (IsAuthenticated a) url.

Definition NewFakeCliAuthenticationProvider : t :=
  mk "https://app.vulnmap.khulnasoft.com/login?token=someToken" false "".

Inductive call :=
  | CallAuthenticate
  | CallClearAuthentication
  | CallSetAuthURL (url : string).

Definition step (a : t) (c : call) : t :=
  match c with
  | CallAuthenticate => (Authenticate a).1
  | CallClearAuthentication => (ClearAuthentication a).1
  | CallSetAuthURL url => SetAuthURL url a
  end.

Definition changesAuthentication (c : call) : bool :=
  match c with CallSetAuthURL _ => false | _ => true end.
End FakeAuthenticationProvider.

(** * Properties *)

(** ** Strings and machine integers *)

Lemma append_String (c : Ascii.ascii) (p rest : string) :
  String c p +:+ rest = String c (p +:+ rest).
Proof. reflexivity. Qed.

Lemma prefix_append (p s : string) :
  String.prefix p s = true ↔ ∃ rest, s = p +:+ rest.
Proof.
  revert s. induction p as [|c p IH]; intros s.
  - split; [intros _; by exists s | by destruct s].
  - destruct s as [|d s]; simpl.
    + split; [done | intros [rest Hrest]; by rewrite append_String in Hrest].
    + destruct (Ascii.ascii_dec c d) as [->|Hne].
      * rewrite IH.
        split; intros [rest Hrest]; exists rest; rewrite append_String in *; congruence.
      * split; [done | intros [rest Hrest]; rewrite append_String in *; congruence].
Qed.

Lemma int_wrap_small (x : Z) : (- 2 ^ 63 <= x < 2 ^ 63)%Z → int_wrap x = x.
Proof. intros Hx. unfold int_wrap. rewrite Z.mod_small; lia. Qed.

(** Without overflow, [n] increments add [n]. *)
Lemma iter_int_incr (n : nat) (x : Z) :
  (- 2 ^ 63 <= x)%Z → (x + Z.of_nat n < 2 ^ 63)%Z →
  Nat.iter n int_incr x = (x + Z.of_nat n)%Z.
Proof.
  intros Hlo. induction n as [|n IH]; intros Hhi; simpl.
  - lia.
  - rewrite IH by lia. unfold int_incr. rewrite int_wrap_small; lia.
Qed.

(** ** The monad *)

Lemma run_bind {A B} (m : M A) (k : A → M B) (f : Folder.t) :
  (m ≫= k) f =
  (result (k (result m f)) (exec m f), exec (k (result m f)) (exec m f),
   trace m f ++ trace (k (result m f)) (exec m f)).
Proof.
  unfold mbind, M_bind, result, exec, trace.
  destruct (m f) as [[a f1] t1]; simpl. destruct (k a f1) as [[b f2] t2].
  reflexivity.
Qed.

Lemma run_bind_eq {A B} (m : M A) (k : A → M B) (f f1 f2 : Folder.t) a b t1 t2 :
  m f = (a, f1, t1) → k a f1 = (b, f2, t2) → (m ≫= k) f = (b, f2, t1 ++ t2).
Proof. intros Hm Hk. unfold mbind, M_bind. by rewrite Hm, Hk. Qed.

Lemma run_eta {A} (m : M A) (f : Folder.t) : m f = (result m f, exec m f, trace m f).
Proof. unfold result, exec, trace. by destruct (m f) as [[a f1] t1]. Qed.

(** ** Filter *)

Section FilterFacts.
Variable GetFilterableIssueType : Issue.t → FilterableIssueType.
Variable config : Config.t.

Local Abbreviation keeps := (keeps GetFilterableIssueType config).

Lemma FilterIssues_filter issues supported :
  FilterIssues GetFilterableIssueType config issues supported
  = List.filter (keeps supported) issues.
Proof.
  unfold FilterIssues.
  enough (Hgen : ∀ acc,
    fold_left
      (λ filteredIssues issue,
         if isVisibleSeverity config issue
            && lookupBool supported (GetFilterableIssueType issue)
         then filteredIssues ++ [issue] else filteredIssues) issues acc
    = acc ++ List.filter (keeps supported) issues) by apply (Hgen []).
  induction issues as [|i issues IH]; intros acc; simpl.
  - by rewrite app_nil_r.
  - rewrite IH. unfold keeps at 2.
    destruct (isVisibleSeverity config i && _); [by rewrite <- app_assoc | done].
Qed.

Lemma List_filter_sublist {A} (p : A → bool) (l : list A) : List.filter p l `sublist_of` l.
Proof.
  induction l as [|x l IH]; simpl; [constructor|].
  destruct (p x); by constructor.
Qed.
End FilterFacts.

(** C7. For every visibility policy and every table of enabled issue
    types, the filter keeps exactly the issues whose severity the policy
    shows (the field of the policy for Critical, High, Medium or Low,
    according to the severity of the issue) and whose filterable issue type
    the table enables, in the order of the input: the result is the input
    with the other issues struck out.  With the visibility Critical and High
    only and every type of the input enabled, the result is the Critical and
    High issues of the input, in input order. *)
Theorem FilterIssues_keeps_visible_enabled_in_order
    (GetFilterableIssueType : Issue.t → FilterableIssueType) (config : Config.t)
    (issues : list Issue.t) (supportedIssueTypes : gmap string bool) :
  let policy := Config.FilterSeverity config in
  let visible (issue : Issue.t) :=
    match Issue.Severity issue with
    | Critical => SeverityFilter.Critical policy
    | High => SeverityFilter.High policy
    | Medium => SeverityFilter.Medium policy
    | Low => SeverityFilter.Low policy
    end in
  let enabled (issue : Issue.t) :=
    bool_decide (supportedIssueTypes !! GetFilterableIssueType issue = Some true) in
  let filtered := FilterIssues GetFilterableIssueType config issues supportedIssueTypes in
  (∀ issue, issue ∈ filtered ↔
     issue ∈ issues
     ∧ visible issue = true
     ∧ supportedIssueTypes !! GetFilterableIssueType issue = Some true)
  ∧ filtered `sublist_of` issues
  ∧ filtered = List.filter (λ issue, visible issue && enabled issue) issues
  ∧ (policy = SeverityFilter.mk true true false false →
     (∀ issue, issue ∈ issues →
        supportedIssueTypes !! GetFilterableIssueType issue = Some true) →
     filtered =
       List.filter
         (λ issue, match Issue.Severity issue with
                   | Critical | High => true
                   | Medium | Low => false
                   end)
         issues).
Proof.
  intros policy visible enabled filtered. subst filtered.
  rewrite FilterIssues_filter.
  assert (Hkeeps : ∀ issue,
            keeps GetFilterableIssueType config supportedIssueTypes issue
            = visible issue && enabled issue).
  { intros issue. unfold keeps, isVisibleSeverity, lookupBool. subst visible enabled policy.
    cbn beta.
    destruct (supportedIssueTypes !! GetFilterableIssueType issue) as [[|]|];
      by destruct (Issue.Severity issue). }
  rewrite (filter_ext _ _ Hkeeps).
  split; [|split; [|split]].
  - intros issue. rewrite !list_elem_of_In, filter_In, andb_true_iff.
    subst enabled. cbn beta. rewrite bool_decide_eq_true. tauto.
  - apply List_filter_sublist.
  - done.
  - intros Hpolicy Hall. apply filter_ext_in. intros issue Hin.
    apply list_elem_of_In in Hin. subst visible enabled. cbn beta.
    rewrite Hpolicy, (bool_decide_eq_true_2 _ (Hall issue Hin)), andb_true_r.
    by destruct (Issue.Severity issue).
Qed.

(** ** Trust gate *)

Lemma hasTrustedPrefix_spec (folderPath : string) (trustedFolders : list string) :
  hasTrustedPrefix folderPath trustedFolders = true
  ↔ ∃ path, path ∈ trustedFolders ∧ String.prefix path folderPath = true.
Proof.
  induction trustedFolders as [|p rest IH]; simpl.
  - split; [done | intros (path & Hin & _); by apply elem_of_nil in Hin].
  - destruct (String.prefix p folderPath) eqn:Hp.
    + split; [intros _; exists p; split; [left | done] | done].
    + rewrite IH. split.
      * intros (path & Hin & Hpre). exists path. split; [by right | done].
      * intros (path & Hin & Hpre). apply elem_of_cons in Hin as [->|Hin]; [congruence|].
        by exists path.
Qed.

(** C8. With the trust feature disabled every folder is trusted; with the
    feature enabled a folder is trusted exactly when one of the configured
    trusted folders is a prefix of its path, as strings.  With the
    trusted folder /home/user/proj, the folder /home/user/proj/sub is
    trusted and the folder /home/user/other is not. *)
Theorem IsTrusted_iff_trust_disabled_or_prefix (config : Config.t) (f : Folder.t) :
  (IsTrusted config f = true
   ↔ (Config.IsTrustedFolderFeatureEnabled config = false
      ∨ ∃ path rest, path ∈ Config.TrustedFolders config ∧ Folder.path f = path +:+ rest))
  ∧ (let config' :=
       Config.mk true ["/home/user/proj"] (Config.FilterSeverity config)
         (Config.DisplayableIssueTypes config) in
     IsTrusted config' (NewFolder "/home/user/proj/sub" (Folder.name f)) = true
     ∧ IsTrusted config' (NewFolder "/home/user/other" (Folder.name f)) = false).
Proof.
  split; [|done].
  unfold IsTrusted.
  destruct (Config.IsTrustedFolderFeatureEnabled config); simpl.
  - rewrite hasTrustedPrefix_spec. split.
    + intros (path & Hin & Hpre). right. apply prefix_append in Hpre as [rest Hrest].
      by exists path, rest.
    + intros [|(path & rest & Hin & Hrest)]; [done|].
      exists path. split; [done|]. apply prefix_append. by exists rest.
  - split; [by left | done].
Qed.

(** ** The cache as a multiset of issues *)

Lemma cacheIssues_insert (cache : gmap string (list Issue.t)) key issues :
  cacheIssues (<[key := issues]> cache) ≡ₚ issues ++ cacheIssues (delete key cache).
Proof.
  unfold cacheIssues. rewrite <- insert_delete_eq.
  rewrite map_to_list_insert by apply lookup_delete_eq. by rewrite bind_cons.
Qed.

Lemma cacheIssues_lookup (cache : gmap string (list Issue.t)) key :
  cacheIssues cache
  ≡ₚ match cache !! key with None => [] | Some l => l end
     ++ cacheIssues (delete key cache).
Proof.
  destruct (cache !! key) as [l|] eqn:Hkey.
  - unfold cacheIssues. rewrite <- (map_to_list_delete cache key l Hkey) at 1.
    by rewrite bind_cons.
  - by rewrite delete_id.
Qed.

(** The store of the loop of [processResults]: the entry of the file, with
    or without one more issue. *)
Lemma cacheIssues_store (cache : gmap string (list Issue.t)) key extra :
  cacheIssues (<[key := match cache !! key with None => [] | Some l => l end ++ extra]> cache)
  ≡ₚ cacheIssues cache ++ extra.
Proof.
  rewrite cacheIssues_insert, (cacheIssues_lookup cache key) at 1.
  rewrite <- !app_assoc. apply Permutation_app_head, Permutation_app_comm.
Qed.

(** ** Dedup map *)

Section DedupFacts.
Context `{MapRange}.

Lemma dedup_inner (issues : list Issue.t) (m : gmap string bool) uniqueID :
  lookupBool
    (fold_left (λ dedupMap issue, <[getUniqueIssueID issue := true]> dedupMap) issues m)
    uniqueID = true
  ↔ lookupBool m uniqueID = true ∨ uniqueID ∈ getUniqueIssueID <$> issues.
Proof.
  revert m. induction issues as [|i issues IH]; intros m; simpl.
  - rewrite elem_of_nil. tauto.
  - rewrite IH, elem_of_cons. unfold lookupBool.
    destruct (decide (getUniqueIssueID i = uniqueID)) as [<-|Hne].
    + rewrite lookup_insert_eq. simpl. tauto.
    + rewrite lookup_insert_ne by done. intuition congruence.
Qed.

Lemma dedup_outer (entries : list (string * list Issue.t)) (m : gmap string bool) uniqueID :
  lookupBool
    (fold_left
       (λ dedupMap '(_, issues),
          fold_left (λ dedupMap issue, <[getUniqueIssueID issue := true]> dedupMap)
            issues dedupMap)
       entries m)
    uniqueID = true
  ↔ lookupBool m uniqueID = true ∨ uniqueID ∈ getUniqueIssueID <$> (entries ≫= snd).
Proof.
  revert m. induction entries as [|[key issues] entries IH]; intros m; simpl.
  - rewrite elem_of_nil. tauto.
  - rewrite IH, dedup_inner, fmap_app, elem_of_app. tauto.
Qed.

Lemma createDedupMap_run (f : Folder.t) :
  createDedupMap f = (result createDedupMap f, f, []).
Proof. reflexivity. Qed.

(** The dedup map holds exactly the unique identities of the cached issues. *)
Lemma createDedupMap_spec (f : Folder.t) uniqueID :
  lookupBool (result createDedupMap f) uniqueID = true
  ↔ uniqueID ∈ cachedIDs (Folder.documentDiagnosticCache f).
Proof.
  unfold result, createDedupMap, cacheRange. simpl. rewrite dedup_outer.
  unfold cachedIDs, cacheIssues, lookupBool. rewrite lookup_empty. simpl.
  rewrite (range_order_perm InCreateDedupMap _ (Folder.documentDiagnosticCache f)).
  intuition congruence.
Qed.

Lemma accepts_spec (f : Folder.t) issue :
  accepts (result createDedupMap f) issue = true
  ↔ getUniqueIssueID issue ∉ cachedIDs (Folder.documentDiagnosticCache f).
Proof.
  unfold accepts. rewrite <- createDedupMap_spec.
  destruct (lookupBool _ _); simpl; split; congruence.
Qed.
End DedupFacts.

(** ** The loop of [processResults] *)

Lemma processIssue_run dedupMap scanData issue (f : Folder.t) :
  processIssue dedupMap scanData issue f
  = (countIssue dedupMap scanData issue,
     Folder.withCache f (storeIssue dedupMap (Folder.documentDiagnosticCache f) issue),
     []).
Proof.
  unfold processIssue, countIssue, storeIssue, accepts.
  unfold cacheLoad, cacheStore, getFolder, putFolder, mbind, M_bind, mret, M_ret. simpl.
  destruct (lookupBool dedupMap (getUniqueIssueID issue)); simpl; [|done].
  by rewrite app_nil_r.
Qed.

Lemma processLoop_run dedupMap issues scanData (f : Folder.t) :
  forEachWith issues scanData (processIssue dedupMap) f
  = (fold_left (countIssue dedupMap) issues scanData,
     Folder.withCache f
       (fold_left (storeIssue dedupMap) issues (Folder.documentDiagnosticCache f)),
     []).
Proof.
  revert scanData f. induction issues as [|i issues IH]; intros scanData f; simpl.
  - by destruct f.
  - rewrite run_bind. unfold result, exec, trace.
    rewrite processIssue_run. simpl. by rewrite IH.
Qed.

Lemma storeLoop_issues dedupMap issues (cache : gmap string (list Issue.t)) :
  cacheIssues (fold_left (storeIssue dedupMap) issues cache)
  ≡ₚ cacheIssues cache ++ List.filter (accepts dedupMap) issues.
Proof.
  revert cache. induction issues as [|i issues IH]; intros cache; simpl.
  - by rewrite app_nil_r.
  - rewrite IH. unfold storeIssue. rewrite cacheIssues_store.
    destruct (accepts dedupMap i); simpl; by rewrite <- app_assoc.
Qed.

(** ** Severity counters *)

Lemma counter_incrementSeverity severity severity' (c : SeverityCount.t) :
  counter severity (incrementSeverity severity' c)
  = if decide (severity' = severity) then int_incr (counter severity c)
    else counter severity c.
Proof. by destruct severity, severity'. Qed.

Lemma counts_initialize scanData productType :
  let key := if decide (productType = "") then "unknown" else productType in
  ScanData.counts (initializeSeverityCountForProduct scanData productType)
  = match ScanData.counts scanData !! key with
    | None => <[key := SeverityCount.zero]> (ScanData.counts scanData)
    | Some _ => ScanData.counts scanData
    end.
Proof.
  unfold initializeSeverityCountForProduct, ScanData.counts.
  destruct (ScanData.SeverityCount scanData) as [m|]; simpl;
    by destruct (_ !! _).
Qed.

Lemma initialize_empty_key scanData productType :
  ScanData.counts (initializeSeverityCountForProduct scanData productType) !! ""
  = ScanData.counts scanData !! "".
Proof.
  pose proof (counts_initialize scanData productType) as Hinit. simpl in Hinit.
  rewrite Hinit. destruct (_ !! (if decide (productType = "") then _ else _)); [done|].
  apply lookup_insert_ne. by case_decide.
Qed.

(** One increment: the counters of the issue's product, "unknown" for no
    product, gain one at the issue's severity; no other entry changes. *)
Lemma countFor_increment scanData issue product :
  let key := if decide (Issue.Product issue = "") then "unknown" else Issue.Product issue in
  countFor (incrementSeverityCount scanData issue) product
  = if decide (key = product)
    then incrementSeverity (Issue.Severity issue) (countFor scanData product)
    else countFor scanData product.
Proof.
  intros key. unfold incrementSeverityCount. fold key.
  assert (Hkey : (if decide (key = "") then "unknown" else key) = key).
  { subst key. by repeat case_decide. }
  unfold countFor at 1. unfold ScanData.counts at 1. simpl.
  pose proof (counts_initialize scanData key) as Hinit. simpl in Hinit.
  rewrite Hkey in Hinit. rewrite Hinit. unfold countFor.
  destruct (decide (key = product)) as [<-|Hne].
  - rewrite lookup_insert_eq. simpl.
    destruct (ScanData.counts scanData !! key) eqn:Hc; simpl; [by rewrite Hc|].
    by rewrite lookup_insert_eq.
  - rewrite lookup_insert_ne by done.
    destruct (ScanData.counts scanData !! key); [done|].
    by rewrite lookup_insert_ne.
Qed.

Lemma counts_increment_empty_key scanData issue :
  ScanData.counts (incrementSeverityCount scanData issue) !! ""
  = ScanData.counts scanData !! "".
Proof.
  unfold incrementSeverityCount.
  set (key := if decide (Issue.Product issue = "") then "unknown" else Issue.Product issue).
  assert (Hne : key ≠ "") by (subst key; by case_decide).
  assert (Hkey : (if decide (key = "") then "unknown" else key) = key) by by case_decide.
  unfold ScanData.counts at 1. simpl. rewrite lookup_insert_ne by done.
  pose proof (counts_initialize scanData key) as Hinit. simpl in Hinit.
  rewrite Hkey in Hinit. rewrite Hinit.
  destruct (ScanData.counts scanData !! key); [done|]. by rewrite lookup_insert_ne.
Qed.

Lemma countLoop_counter dedupMap issues scanData product severity :
  counter severity (countFor (fold_left (countIssue dedupMap) issues scanData) product)
  = Nat.iter
      (length (filter (countedUnder product severity)
                 (List.filter (accepts dedupMap) issues)))
      int_incr (counter severity (countFor scanData product)).
Proof.
  revert scanData. induction issues as [|i issues IH]; intros scanData; simpl; [done|].
  rewrite IH. unfold countIssue.
  destruct (accepts dedupMap i); [|done].
  rewrite countFor_increment.
  set (key := if decide (Issue.Product i = "") then "unknown" else Issue.Product i).
  assert (Hkey : key = product
                 ↔ Issue.Product i = product ∧ product ≠ ""
                   ∨ Issue.Product i = "" ∧ product = "unknown").
  { subst key. case_decide; split; intros; intuition congruence. }
  destruct (decide (key = product)) as [Heq|Hne].
  - rewrite counter_incrementSeverity.
    destruct (decide (Issue.Severity i = severity)) as [Hsev|Hsev].
    + rewrite filter_cons_True by (split; [done | by apply Hkey]).
      simpl length. by rewrite Nat.iter_succ_r.
    + by rewrite filter_cons_False by (intros [? _]; done).
  - by rewrite filter_cons_False by (intros [_ ?]; by apply Hne, Hkey).
Qed.

Lemma countLoop_empty_key dedupMap issues scanData :
  ScanData.counts (fold_left (countIssue dedupMap) issues scanData) !! ""
  = ScanData.counts scanData !! "".
Proof.
  revert scanData. induction issues as [|i issues IH]; intros scanData; simpl; [done|].
  rewrite IH. unfold countIssue.
  destruct (accepts dedupMap i); [apply counts_increment_empty_key | done].
Qed.

(** ** Publisher *)

Lemma forEach_events {A} (l : list A) (body : A → M unit) (ev : A → Event) (f : Folder.t) :
  (∀ x g, body x g = (tt, g, [ev x])) → forEach l body f = (tt, f, ev <$> l).
Proof.
  intros Hbody. induction l as [|x l IH]; [done|].
  simpl. rewrite run_bind. unfold result, exec, trace. rewrite Hbody. simpl. by rewrite IH.
Qed.

Lemma fold_left_insert_lookup {V W} (g : V → W) (l : list (string * V))
    (m : gmap string W) (key : string) :
  NoDup l.*1 →
  fold_left (λ acc '(k, v), <[k := g v]> acc) l m !! key
  = match (list_to_map l : gmap string V) !! key with
    | Some v => Some (g v)
    | None => m !! key
    end.
Proof.
  revert m. induction l as [|[k v] l IH]; intros m Hnodup; simpl; [done|].
  apply NoDup_cons in Hnodup as [Hk Hnodup]. rewrite IH by done.
  destruct (decide (k = key)) as [->|Hne].
  - rewrite lookup_insert_eq, (not_elem_of_list_to_map_1 l key Hk).
    by rewrite lookup_insert_eq.
  - rewrite (lookup_insert_ne (list_to_map l)) by done.
    destruct (list_to_map l !! key); [done | by rewrite lookup_insert_ne].
Qed.

Section PublishFacts.
Context `{MapRange}.
Variable GetFilterableIssueType : Issue.t → FilterableIssueType.
Variable config : Config.t.

Lemma range_order_to_map {V} (s : RangeSite) (m : gmap string V) :
  NoDup (range_order s m).*1 ∧ list_to_map (range_order s m) = m.
Proof.
  pose proof (range_order_perm s V m) as Hperm.
  assert (Hnodup : NoDup (range_order s m).*1).
  { rewrite Hperm. apply NoDup_fst_map_to_list. }
  split; [done|].
  rewrite (list_to_map_proper _ _ Hnodup Hperm). apply list_to_map_to_list.
Qed.

Lemma sendDiagnostics_run issuesByFile (f : Folder.t) :
  sendDiagnostics issuesByFile f
  = (tt, f, diagnosticsOf <$> range_order InSendDiagnostics issuesByFile).
Proof. apply forEach_events. by intros [path issues] g. Qed.

Lemma sendHovers_run issuesByFile (f : Folder.t) :
  sendHovers issuesByFile f = (tt, f, hoverOf <$> range_order InSendHovers issuesByFile).
Proof. apply forEach_events. by intros [path issues] g. Qed.

Lemma productIssues_bind (l : list (string * list Issue.t)) (acc : list Issue.t) :
  fold_left (λ productIssues '(_, issues), productIssues ++ issues) l acc
  = acc ++ l ≫= snd.
Proof.
  revert acc. induction l as [|[k v] l IH]; intros acc; simpl.
  - by rewrite app_nil_r.
  - by rewrite IH, <- app_assoc.
Qed.

Lemma sendScanResults_run product issuesByFile (f : Folder.t) :
  sendScanResults product issuesByFile f
  = (tt, f,
     [scanResultOf product (Folder.path f)
        (range_order InSendScanResults issuesByFile ≫= snd)]).
Proof.
  unfold sendScanResults, scanResultOf. rewrite productIssues_bind.
  unfold mbind at 1, M_bind, getFolder. simpl. by case_decide.
Qed.

Lemma publishDiagnostics_run product issuesByFile (f : Folder.t) :
  publishDiagnostics product issuesByFile f
  = (tt, f,
     (diagnosticsOf <$> range_order InSendDiagnostics issuesByFile)
     ++ [scanResultOf product (Folder.path f)
           (range_order InSendScanResults issuesByFile ≫= snd)]
     ++ (hoverOf <$> range_order InSendHovers issuesByFile)).
Proof.
  unfold publishDiagnostics.
  eapply run_bind_eq; [apply sendDiagnostics_run|].
  eapply run_bind_eq; [apply sendScanResults_run | apply sendHovers_run].
Qed.

Lemma filterCachedDiagnostics_run (f : Folder.t) :
  filterCachedDiagnostics GetFilterableIssueType config f
  = ((λ issues,
        FilterIssues GetFilterableIssueType config issues
          (Config.DisplayableIssueTypes config))
       <$> Folder.documentDiagnosticCache f,
     f, []).
Proof.
  unfold filterCachedDiagnostics, cacheRange, getFolder, mbind, M_bind, mret, M_ret.
  simpl. case_decide as Hsize.
  - apply map_size_empty_inv in Hsize. rewrite Hsize. by rewrite fmap_empty.
  - simpl. f_equal. f_equal. apply map_eq. intros key.
    destruct (range_order_to_map InFilterCachedDiagnostics (Folder.documentDiagnosticCache f))
      as [Hnodup Hmap].
    rewrite fold_left_insert_lookup by done.
    rewrite Hmap, lookup_fmap, lookup_empty. by destruct (_ !! key).
Qed.

Lemma FilterAndPublishCachedDiagnostics_run product (f : Folder.t) :
  FilterAndPublishCachedDiagnostics GetFilterableIssueType config product f
  = publishDiagnostics product
      ((λ issues,
          FilterIssues GetFilterableIssueType config issues
            (Config.DisplayableIssueTypes config))
         <$> Folder.documentDiagnosticCache f) f.
Proof.
  unfold FilterAndPublishCachedDiagnostics.
  rewrite publishDiagnostics_run.
  eapply (run_bind_eq _ _ _ _ _ _ _ []); [apply filterCachedDiagnostics_run|].
  apply publishDiagnostics_run.
Qed.

Lemma sendAnalytics_run data (f : Folder.t) :
  exec (sendAnalytics data) f = f
  ∧ ScanData.Product (result (sendAnalytics data) f) = ScanData.Product data
  ∧ (ScanData.Product data = "" → trace (sendAnalytics data) f = []).
Proof.
  unfold sendAnalytics.
  assert (Hprod : ScanData.Product
                    (initializeSeverityCountForProduct data (ScanData.Product data))
                  = ScanData.Product data).
  { unfold initializeSeverityCountForProduct. by destruct (_ !! _). }
  assert (Herr : ScanData.Err
                   (initializeSeverityCountForProduct data (ScanData.Product data))
                 = ScanData.Err data).
  { unfold initializeSeverityCountForProduct. by destruct (_ !! _). }
  rewrite Hprod, Herr.
  case_decide; [done|]. destruct (ScanData.Err data); done.
Qed.

Lemma countLoop_Product dedupMap issues scanData :
  ScanData.Product (fold_left (countIssue dedupMap) issues scanData)
  = ScanData.Product scanData.
Proof.
  revert scanData. induction issues as [|i issues IH]; intros scanData; simpl; [done|].
  rewrite IH. unfold countIssue. destruct (accepts dedupMap i); [|done].
  unfold incrementSeverityCount, initializeSeverityCountForProduct.
  by destruct (_ !! _).
Qed.

Lemma FilterAndPublishCachedDiagnostics_exec product (f : Folder.t) :
  FilterAndPublishCachedDiagnostics GetFilterableIssueType config product f
  = (tt, f,
     trace (FilterAndPublishCachedDiagnostics GetFilterableIssueType config product) f).
Proof.
  unfold trace. by rewrite FilterAndPublishCachedDiagnostics_run, publishDiagnostics_run.
Qed.

(** A successful scan: the loop on the cache and on the counters, the
    analytics event, and the publish of the filtered cache for the product
    of the scan. *)
Lemma processResults_success scanData (f : Folder.t) :
  ScanData.Err scanData = None →
  let dedupMap := result createDedupMap f in
  let f' :=
    Folder.withCache f
      (fold_left (storeIssue dedupMap) (ScanData.Issues scanData)
         (Folder.documentDiagnosticCache f)) in
  processResults GetFilterableIssueType config scanData f
  = (tt, f',
     trace (sendAnalytics
              (fold_left (countIssue dedupMap) (ScanData.Issues scanData) scanData)) f'
     ++ trace (FilterAndPublishCachedDiagnostics GetFilterableIssueType config
                 (ScanData.Product scanData)) f').
Proof.
  intros Herr dedupMap f'. unfold processResults. rewrite Herr.
  eapply (run_bind_eq _ _ _ _ _ _ _ [] (_ ++ _)).
  { unfold updateDiagnosticCache.
    eapply (run_bind_eq _ _ _ _ _ _ _ [] []);
      [apply createDedupMap_run | apply processLoop_run]. }
  fold dedupMap f'.
  set (counted := fold_left (countIssue dedupMap) (ScanData.Issues scanData) scanData).
  destruct (sendAnalytics_run counted f') as (Hexec & Hprod & _).
  eapply run_bind_eq; [apply run_eta|].
  rewrite Hexec, Hprod. subst counted. rewrite countLoop_Product.
  apply FilterAndPublishCachedDiagnostics_exec.
Qed.
End PublishFacts.

(** ** Scan failure *)

(** C5. A scan that reports an error sends one scan-failure notification
    for its product and the folder path, and nothing else happens: no other
    notification is sent, and the folder (cache, status, path, name) is the
    same after the call as before. *)
Theorem processResults_error_notifies_and_leaves_folder `{MapRange}
    (GetFilterableIssueType : Issue.t → FilterableIssueType) (config : Config.t)
    (scanData : ScanData.t) (f : Folder.t) :
  ScanData.Err scanData ≠ None →
  processResults GetFilterableIssueType config scanData f
  = (tt, f, [ScanNotifierSendError (ScanData.Product scanData) (Folder.path f)]).
Proof.
  intros Herr. unfold processResults. by destruct (ScanData.Err scanData).
Qed.

Lemma processResults_error_notifies_and_leaves_folder_witness :
  @processResults canonicalRange Sample.filterableType Sample.config Sample.failed Sample.scanned
  = (tt, Sample.scanned, [ScanNotifierSendError "oss" "/home/user/proj"]).
Proof.
  apply (@processResults_error_notifies_and_leaves_folder canonicalRange).
  simpl. discriminate.
Defined.

(** ** Dedup across batches *)

Lemma filter_absent {A} (g : A → string) (v : string) (l : list A) :
  v ∉ g <$> l → filter (λ y, g y = v) l = [].
Proof.
  induction l as [|x l IH]; [done|]. rewrite fmap_cons, not_elem_of_cons.
  intros [Hne Hnotin]. by rewrite filter_cons_False, IH.
Qed.

Lemma filter_single {A} (g : A → string) (v : string) (l : list A) :
  NoDup (g <$> l) → v ∈ g <$> l → length (filter (λ y, g y = v) l) = 1%nat.
Proof.
  induction l as [|x l IH]; [by rewrite elem_of_nil|].
  rewrite fmap_cons, NoDup_cons, elem_of_cons. intros [Hnotin Hnodup] Hin.
  destruct (decide (g x = v)) as [Heq|Hne].
  - rewrite filter_cons_True by done. rewrite filter_absent; [done | by rewrite <- Heq].
  - rewrite filter_cons_False by done. apply IH; [done|]. by destruct Hin.
Qed.

Lemma List_filter_NoDup_fmap {A} (g : A → string) (p : A → bool) (l : list A) :
  NoDup (g <$> l) → NoDup (g <$> List.filter p l).
Proof.
  intros Hnodup. apply (sublist_NoDup _ (g <$> l)); [done|].
  apply fmap_sublist, List_filter_sublist.
Qed.

Section DedupAcrossBatches.
Context `{MapRange}.
Variable GetFilterableIssueType : Issue.t → FilterableIssueType.
Variable config : Config.t.

Local Abbreviation processResults := (processResults GetFilterableIssueType config).

(** The cache after a successful batch: the cache before, and the issues
    of the batch whose identity the cache did not hold before. *)
Lemma processResults_cacheIssues scanData (f : Folder.t) :
  ScanData.Err scanData = None →
  cacheIssues (Folder.documentDiagnosticCache (exec (processResults scanData) f))
  ≡ₚ cacheIssues (Folder.documentDiagnosticCache f)
     ++ List.filter (accepts (result createDedupMap f)) (ScanData.Issues scanData).
Proof.
  intros Herr. unfold exec. rewrite processResults_success by done. simpl.
  apply storeLoop_issues.
Qed.

Lemma processResults_keeps_deduplicated scanData (f : Folder.t) :
  ScanData.Err scanData = None →
  deduplicated (Folder.documentDiagnosticCache f) →
  NoDup (getUniqueIssueID <$> ScanData.Issues scanData) →
  deduplicated (Folder.documentDiagnosticCache (exec (processResults scanData) f)).
Proof.
  intros Herr Hcache Hbatch. unfold deduplicated, cachedIDs.
  rewrite processResults_cacheIssues, fmap_app by done.
  apply NoDup_app. split; [done|]. split; [|by apply List_filter_NoDup_fmap].
  intros uniqueID Hin Hnew.
  apply list_elem_of_fmap in Hnew as (issue & -> & Hissue).
  apply list_elem_of_In, filter_In in Hissue as [_ Hacc].
  by apply accepts_spec in Hacc.
Qed.

Lemma processResults_holds_batch scanData (f : Folder.t) issue :
  ScanData.Err scanData = None →
  issue ∈ ScanData.Issues scanData →
  getUniqueIssueID issue
  ∈ cachedIDs (Folder.documentDiagnosticCache (exec (processResults scanData) f)).
Proof.
  intros Herr Hin. unfold cachedIDs.
  rewrite processResults_cacheIssues, fmap_app, elem_of_app by done.
  destruct (accepts (result createDedupMap f) issue) eqn:Hacc.
  - right. apply list_elem_of_fmap. exists issue. split; [done|].
    apply list_elem_of_In, filter_In. split; [by apply list_elem_of_In | done].
  - left. destruct (decide (getUniqueIssueID issue
                            ∈ cachedIDs (Folder.documentDiagnosticCache f)))
      as [Hold|Hnew]; [done|].
    apply accepts_spec in Hnew. congruence.
Qed.

Lemma processResults_grows scanData (f : Folder.t) uniqueID :
  ScanData.Err scanData = None →
  uniqueID ∈ cachedIDs (Folder.documentDiagnosticCache f) →
  uniqueID ∈ cachedIDs (Folder.documentDiagnosticCache (exec (processResults scanData) f)).
Proof.
  intros Herr Hin. unfold cachedIDs.
  rewrite processResults_cacheIssues, fmap_app, elem_of_app by done. by left.
Qed.
End DedupAcrossBatches.

(** C1, as the code has it.  The dedup map is built once per batch, from
    the cache as it is when the batch arrives.  Two issues [a] and [b] with
    the same [ID] and [AffectedFilePath] that arrive in successive batches,
    into a cache without duplicates and in batches that carry no identity
    twice, leave exactly one cached instance of their identity, after the
    first batch and after the second, and the cache stays without
    duplicates. *)
Theorem processResults_dedup_across_batches `{MapRange}
    (GetFilterableIssueType : Issue.t → FilterableIssueType) (config : Config.t)
    (f : Folder.t) (first second : ScanData.t) (a b : Issue.t) :
  ScanData.Err first = None →
  ScanData.Err second = None →
  deduplicated (Folder.documentDiagnosticCache f) →
  NoDup (getUniqueIssueID <$> ScanData.Issues first) →
  NoDup (getUniqueIssueID <$> ScanData.Issues second) →
  a ∈ ScanData.Issues first →
  b ∈ ScanData.Issues second →
  Issue.ID a = Issue.ID b →
  Issue.AffectedFilePath a = Issue.AffectedFilePath b →
  let f1 := exec (processResults GetFilterableIssueType config first) f in
  let f2 := exec (processResults GetFilterableIssueType config second) f1 in
  instances (Issue.ID a +:+ "|" +:+ Issue.AffectedFilePath a)
    (Folder.documentDiagnosticCache f1) = 1%nat
  ∧ instances (Issue.ID a +:+ "|" +:+ Issue.AffectedFilePath a)
      (Folder.documentDiagnosticCache f2) = 1%nat
  ∧ deduplicated (Folder.documentDiagnosticCache f1)
  ∧ deduplicated (Folder.documentDiagnosticCache f2).
Proof.
  intros Herr1 Herr2 Hcache Hfirst Hsecond Ha Hb HID Hpath f1 f2.
  assert (Hded1 : deduplicated (Folder.documentDiagnosticCache f1))
    by by apply processResults_keeps_deduplicated.
  assert (Hded2 : deduplicated (Folder.documentDiagnosticCache f2))
    by by apply processResults_keeps_deduplicated.
  assert (Hin1 : getUniqueIssueID a ∈ cachedIDs (Folder.documentDiagnosticCache f1))
    by by apply processResults_holds_batch.
  assert (Hin2 : getUniqueIssueID a ∈ cachedIDs (Folder.documentDiagnosticCache f2))
    by by apply processResults_grows.
  repeat split; try done; by apply filter_single.
Qed.

Ltac by_computation := apply (bool_decide_unpack _); vm_compute; exact I.

Lemma processResults_dedup_across_batches_witness :
  let f1 :=
    exec (@processResults canonicalRange Sample.filterableType Sample.config
            (Sample.batch [Sample.critical; Sample.high])) Sample.trusted in
  let f2 :=
    exec (@processResults canonicalRange Sample.filterableType Sample.config
            (Sample.batch [Sample.criticalAgain])) f1 in
  instances "V1|/home/user/proj/go.mod" (Folder.documentDiagnosticCache f1) = 1%nat
  ∧ instances "V1|/home/user/proj/go.mod" (Folder.documentDiagnosticCache f2) = 1%nat
  ∧ deduplicated (Folder.documentDiagnosticCache f1)
  ∧ deduplicated (Folder.documentDiagnosticCache f2).
Proof.
  apply (@processResults_dedup_across_batches canonicalRange Sample.filterableType
           Sample.config Sample.trusted (Sample.batch [Sample.critical; Sample.high])
           (Sample.batch [Sample.criticalAgain]) Sample.critical Sample.criticalAgain);
    first [reflexivity | by_computation].
Defined.

(** C1, the claim as it is written, fails inside one batch: both issues of
    the batch [critical; criticalAgain] have the identity
    V1|/home/user/proj/go.mod, neither is in the dedup map built from the
    empty cache, and the cache retains the two of them. *)
Lemma processResults_same_batch_retains_both :
  let cache :=
    Folder.documentDiagnosticCache
      (exec (@processResults canonicalRange Sample.filterableType Sample.config
               (Sample.batch [Sample.critical; Sample.criticalAgain])) Sample.trusted) in
  Issue.ID Sample.critical = Issue.ID Sample.criticalAgain
  ∧ Issue.AffectedFilePath Sample.critical = Issue.AffectedFilePath Sample.criticalAgain
  ∧ cache = {[ "/home/user/proj/go.mod" := [Sample.critical; Sample.criticalAgain] ]}
  ∧ instances "V1|/home/user/proj/go.mod" cache = 2%nat
  ∧ ¬ deduplicated cache.
Proof.
  repeat split; try reflexivity.
  intros Hded. apply (bool_decide_pack _) in Hded. vm_compute in Hded. exact Hded.
Qed.

(** ** Counting accepted issues *)

(** C6. In a successful batch the dedup check accepts an issue exactly when
    its unique identity is not among the cached ones when the batch arrives;
    the accepted issues are the ones added to the cache.  The counter of a
    product and a severity is incremented once for every accepted issue of
    that severity counted under that product, and for no other issue: the
    counter grows by their number, as long as a Go [int] holds it.  An
    accepted issue without product is counted under "unknown", and the
    entry of the empty product is never written, neither by the loop nor by
    the initialisation in [sendAnalytics]. *)
Theorem updateDiagnosticCache_counts_accepted_issues `{MapRange}
    (scanData : ScanData.t) (f : Folder.t) (product : Product) (severity : Severity) :
  let dedupMap := result createDedupMap f in
  let accepted := List.filter (accepts dedupMap) (ScanData.Issues scanData) in
  let counted := result (updateDiagnosticCache scanData) f in
  let f' := exec (updateDiagnosticCache scanData) f in
  let increments :=
    length
      (filter
         (λ issue,
            Issue.Severity issue = severity
            ∧ (Issue.Product issue = product ∧ product ≠ ""
               ∨ Issue.Product issue = "" ∧ product = "unknown"))
         accepted) in
  (∀ issue, accepts dedupMap issue = true
            ↔ getUniqueIssueID issue ∉ cachedIDs (Folder.documentDiagnosticCache f))
  ∧ cacheIssues (Folder.documentDiagnosticCache f')
    ≡ₚ cacheIssues (Folder.documentDiagnosticCache f) ++ accepted
  ∧ counter severity (countFor counted product)
    = Nat.iter increments int_incr (counter severity (countFor scanData product))
  ∧ ((- 2 ^ 63 <= counter severity (countFor scanData product))%Z →
     (counter severity (countFor scanData product) + Z.of_nat increments < 2 ^ 63)%Z →
     counter severity (countFor counted product)
     = (counter severity (countFor scanData product) + Z.of_nat increments)%Z)
  ∧ ScanData.counts counted !! "" = ScanData.counts scanData !! ""
  ∧ ScanData.counts (initializeSeverityCountForProduct counted (ScanData.Product counted))
    !! "" = ScanData.counts scanData !! "".
Proof.
  intros dedupMap accepted counted f' increments.
  assert (Hrun : updateDiagnosticCache scanData f
                 = (fold_left (countIssue dedupMap) (ScanData.Issues scanData) scanData,
                    Folder.withCache f
                      (fold_left (storeIssue dedupMap) (ScanData.Issues scanData)
                         (Folder.documentDiagnosticCache f)),
                    [])).
  { unfold updateDiagnosticCache.
    eapply (run_bind_eq _ _ _ _ _ _ _ [] []);
      [apply createDedupMap_run | apply processLoop_run]. }
  assert (Hcounted : counted
                     = fold_left (countIssue dedupMap) (ScanData.Issues scanData) scanData)
    by (subst counted; unfold result; by rewrite Hrun).
  assert (Hf' : f' = Folder.withCache f
                       (fold_left (storeIssue dedupMap) (ScanData.Issues scanData)
                          (Folder.documentDiagnosticCache f)))
    by (subst f'; unfold exec; by rewrite Hrun).
  clearbody counted f'. subst counted f'. simpl.
  split; [intros issue; apply accepts_spec|].
  split; [apply storeLoop_issues|].
  split; [apply countLoop_counter|].
  split; [intros Hlo Hhi; rewrite countLoop_counter; by apply iter_int_incr|].
  split; [apply countLoop_empty_key|].
  rewrite initialize_empty_key. apply countLoop_empty_key.
Qed.

(** On the scanned sample folder the batch [criticalAgain; medium; low]
    brings two new issues; the one without product is counted under
    "unknown". *)
Lemma updateDiagnosticCache_counts_accepted_issues_witness :
  counter Low
    (countFor
       (result
          (@updateDiagnosticCache canonicalRange
             (Sample.batch [Sample.criticalAgain; Sample.medium; Sample.low]))
          Sample.scanned)
       "unknown") = 1%Z.
Proof.
  destruct (@updateDiagnosticCache_counts_accepted_issues canonicalRange
              (Sample.batch [Sample.criticalAgain; Sample.medium; Sample.low])
              Sample.scanned "unknown" Low) as (_ & _ & _ & Hadd & _).
  rewrite Hadd; [reflexivity | by vm_compute | by vm_compute].
Defined.

(** ** Order of a publish *)

(** C4, as the code has it.  A publish sends the diagnostics of every file,
    then the one scan result of the folder, then the hovers of every file:
    [publishDiagnostics] calls [sendDiagnostics], [sendScanResults] and
    [sendHovers] in this order.  There is one diagnostics notification and
    one hover notification per file, and the scan result carries the issues
    of all files. *)
Theorem publishDiagnostics_order `{MapRange}
    (product : Product) (issuesByFile : gmap string (list Issue.t)) (f : Folder.t) :
  ∃ diagnostics scanResult hovers,
    publishDiagnostics product issuesByFile f
    = (tt, f, diagnostics ++ [scanResult] ++ hovers)
    ∧ diagnostics
      ≡ₚ (λ entry, NotifierSendDiagnostics entry.1 entry.2) <$> map_to_list issuesByFile
    ∧ hovers ≡ₚ (λ entry, HoverChannelSend entry.1 entry.2) <$> map_to_list issuesByFile
    ∧ ∃ productIssues,
        productIssues ≡ₚ map_to_list issuesByFile ≫= snd
        ∧ scanResult
          = if decide (product = "")
            then ScanNotifierSendSuccessForAllProducts (Folder.path f) productIssues
            else ScanNotifierSendSuccess product (Folder.path f) productIssues.
Proof.
  exists (diagnosticsOf <$> range_order InSendDiagnostics issuesByFile),
    (scanResultOf product (Folder.path f)
       (range_order InSendScanResults issuesByFile ≫= snd)),
    (hoverOf <$> range_order InSendHovers issuesByFile).
  split; [apply publishDiagnostics_run|].
  split; [by rewrite range_order_perm|].
  split; [by rewrite range_order_perm|].
  exists (range_order InSendScanResults issuesByFile ≫= snd).
  split; [by rewrite range_order_perm|].
  unfold scanResultOf. by repeat case_decide.
Qed.

(** C4, the claim as it is written, fails for a folder with one cached file:
    the scan result is the second of the three notifications, not the
    last. *)
Lemma publishDiagnostics_scan_result_not_last :
  let issuesByFile : gmap string (list Issue.t) :=
    {[ "/home/user/proj/go.mod" := [Sample.critical] ]} in
  trace (@publishDiagnostics canonicalRange "oss" issuesByFile) Sample.trusted
  = [NotifierSendDiagnostics "/home/user/proj/go.mod" [Sample.critical];
     ScanNotifierSendSuccess "oss" "/home/user/proj" [Sample.critical];
     HoverChannelSend "/home/user/proj/go.mod" [Sample.critical]]
  ∧ ¬ scanResultLast
        (trace (@publishDiagnostics canonicalRange "oss" issuesByFile) Sample.trusted).
Proof.
  intros issuesByFile.
  assert (Htrace :
    trace (@publishDiagnostics canonicalRange "oss" issuesByFile) Sample.trusted
    = [NotifierSendDiagnostics "/home/user/proj/go.mod" [Sample.critical];
       ScanNotifierSendSuccess "oss" "/home/user/proj" [Sample.critical]]
      ++ [HoverChannelSend "/home/user/proj/go.mod" [Sample.critical]])
    by reflexivity.
  split; [done|]. rewrite Htrace.
  intros (diagnostics & hovers & scanResult & Heq & _ & _ & Hlast).
  rewrite app_assoc in Heq. apply app_inj_tail in Heq as [_ <-]. discriminate.
Qed.

(** ** Scanning: trust gate and cache hit *)

Section ScanFacts.
Context `{MapRange}.
Variable GetFilterableIssueType : Issue.t → FilterableIssueType.
Variable config : Config.t.
Variable scanner : string → string → list ScanData.t.

Local Abbreviation process := (processResults GetFilterableIssueType config).
Local Abbreviation scanPath := (scan GetFilterableIssueType config scanner).
Local Abbreviation scanFolder := (ScanFolder GetFilterableIssueType config scanner).

Lemma scan_untrusted path (f : Folder.t) :
  IsTrusted config f = false → scanPath path f = (tt, f, []).
Proof.
  intros Htrust. unfold scan, mbind at 1, M_bind, getFolder.
  by rewrite Htrust.
Qed.

Lemma scan_cached path issues (f : Folder.t) :
  IsTrusted config f = true →
  Folder.documentDiagnosticCache f !! path = Some issues →
  scanPath path f = process (cachedScanData issues) f.
Proof.
  intros Htrust Hhit. unfold scan, mbind at 1, M_bind, getFolder.
  rewrite Htrust. simpl.
  unfold DocumentDiagnosticsFromCache, cacheLoad, mbind at 1, M_bind, getFolder.
  unfold mbind at 1, M_bind, mret, M_ret. rewrite Hhit. simpl.
  by destruct (processResults _ _ _ f) as [[[] f'] t].
Qed.

Lemma scan_uncached path (f : Folder.t) :
  IsTrusted config f = true →
  Folder.documentDiagnosticCache f !! path = None →
  scanPath path f
  = (tt, exec (forEach (scanner path (Folder.path f)) process) f,
     ScannerScan path (Folder.path f)
     :: trace (forEach (scanner path (Folder.path f)) process) f).
Proof.
  intros Htrust Hmiss. unfold scan, mbind at 1, M_bind, getFolder.
  rewrite Htrust. simpl.
  unfold DocumentDiagnosticsFromCache, cacheLoad, mbind at 1, M_bind, getFolder.
  unfold mbind at 1, M_bind, mret, M_ret. rewrite Hmiss. simpl.
  unfold mbind, M_bind, emit, exec, trace.
  by destruct (forEach _ _ f) as [[[] f'] t].
Qed.

Lemma ScanFolder_run (f : Folder.t) :
  scanFolder f
  = (tt, Folder.withStatus (exec (scanPath (Folder.path f)) f) Scanned,
     trace (scanPath (Folder.path f)) f).
Proof.
  unfold ScanFolder, mbind at 1, M_bind, getFolder.
  unfold mbind, M_bind, SetStatus, getFolder, putFolder, exec, trace.
  destruct (scan _ _ _ _ f) as [[[] f'] t]. simpl.
  by rewrite !app_nil_r.
Qed.

(** The replay of cached issues: no product, hence no analytics event, and
    the scan result goes to all products. *)
Lemma replay_trace issues (f : Folder.t) :
  ∃ issuesByFile : gmap string (list Issue.t),
    trace (process (cachedScanData issues)) f
    = (diagnosticsOf <$> range_order InSendDiagnostics issuesByFile)
      ++ [ScanNotifierSendSuccessForAllProducts (Folder.path f)
            (range_order InSendScanResults issuesByFile ≫= snd)]
      ++ (hoverOf <$> range_order InSendHovers issuesByFile).
Proof.
  unfold trace at 1. rewrite processResults_success by done.
  destruct (sendAnalytics_run
              (fold_left (countIssue (result createDedupMap f)) issues
                 (cachedScanData issues))
              (Folder.withCache f
                 (fold_left (storeIssue (result createDedupMap f)) issues
                    (Folder.documentDiagnosticCache f))))
    as (_ & _ & Hquiet).
  simpl. rewrite Hquiet by apply countLoop_Product. simpl.
  unfold trace. rewrite FilterAndPublishCachedDiagnostics_run, publishDiagnostics_run.
  simpl. by eexists.
Qed.
End ScanFacts.

(** C2, as the code has it.  [ScanFolder] leaves the trust check to [scan]
    and sets the status after it in every case.  For an untrusted folder the
    scanner is not invoked, nothing is sent, and cache, path and name are
    unchanged, while the status becomes Scanned.  The scanner is invoked
    only for a trusted folder; for a trusted folder without cache entry under
    its own path the scan starts with the call of the scanner. *)
Theorem ScanFolder_trust_gate `{MapRange}
    (GetFilterableIssueType : Issue.t → FilterableIssueType) (config : Config.t)
    (scanner : string → string → list ScanData.t) (f : Folder.t) :
  let run := ScanFolder GetFilterableIssueType config scanner in
  Folder.status (exec run f) = Scanned
  ∧ (IsTrusted config f = false →
     run f = (tt, Folder.mk (Folder.path f) (Folder.name f) Scanned
                    (Folder.documentDiagnosticCache f), []))
  ∧ (Exists (λ e, isScannerScan e = true) (trace run f) → IsTrusted config f = true)
  ∧ (IsTrusted config f = true →
     Folder.documentDiagnosticCache f !! Folder.path f = None →
     ∃ rest, trace run f = ScannerScan (Folder.path f) (Folder.path f) :: rest).
Proof.
  intros run. subst run. unfold exec, trace. rewrite ScanFolder_run. simpl.
  split; [done|]. split; [|split].
  - intros Htrust. unfold exec, trace. by rewrite scan_untrusted.
  - intros Hscan. destruct (IsTrusted config f) eqn:Htrust; [done|].
    unfold trace in Hscan. rewrite scan_untrusted in Hscan by done.
    by apply Exists_nil in Hscan.
  - intros Htrust Hmiss. unfold trace. rewrite scan_uncached by done. by eexists.
Qed.

Lemma ScanFolder_trust_gate_witness :
  let run := @ScanFolder canonicalRange Sample.filterableType Sample.config Sample.scanner in
  run Sample.untrusted = (tt, Folder.mk "/home/user/other" "other" Scanned ∅, [])
  ∧ ∃ rest, trace run Sample.trusted
            = ScannerScan "/home/user/proj" "/home/user/proj" :: rest.
Proof.
  destruct (@ScanFolder_trust_gate canonicalRange Sample.filterableType Sample.config
              Sample.scanner Sample.untrusted) as (_ & Huntrusted & _).
  destruct (@ScanFolder_trust_gate canonicalRange Sample.filterableType Sample.config
              Sample.scanner Sample.trusted) as (_ & _ & _ & Htrusted).
  split; [apply Huntrusted; reflexivity | apply Htrusted; reflexivity].
Defined.

(** C2, the claim as it is written, fails on the status: the untrusted
    folder /home/user/other is Unscanned before [ScanFolder] and Scanned
    after it. *)
Lemma ScanFolder_untrusted_changes_status :
  let f' :=
    exec (@ScanFolder canonicalRange Sample.filterableType Sample.config Sample.scanner)
      Sample.untrusted in
  IsTrusted Sample.config Sample.untrusted = false
  ∧ Folder.status Sample.untrusted = Unscanned
  ∧ Folder.status f' = Scanned
  ∧ Folder.status f' ≠ Folder.status Sample.untrusted.
Proof. repeat split; try reflexivity. discriminate. Qed.

(** C3. In a trusted folder, [ScanFile] on a path with a cache entry, in
    particular a non-empty one, does not invoke the scanner: it is
    [processResults] on the cached issues of the path, with no product and no
    error.  On a path without cache entry it invokes the scanner, whose
    results then go through [processResults]. *)
Theorem ScanFile_replays_cache_or_delegates `{MapRange}
    (GetFilterableIssueType : Issue.t → FilterableIssueType) (config : Config.t)
    (scanner : string → string → list ScanData.t) (f : Folder.t) (path : string) :
  IsTrusted config f = true →
  let run := ScanFile GetFilterableIssueType config scanner path in
  (∀ issues, Folder.documentDiagnosticCache f !! path = Some issues →
     run f
     = processResults GetFilterableIssueType config
         (ScanData.mk "" issues None 0 0 None) f
     ∧ Forall (λ e, isScannerScan e = false) (trace run f))
  ∧ (Folder.documentDiagnosticCache f !! path = None →
     run f
     = (tt,
        exec (forEach (scanner path (Folder.path f))
                (processResults GetFilterableIssueType config)) f,
        ScannerScan path (Folder.path f)
        :: trace (forEach (scanner path (Folder.path f))
                    (processResults GetFilterableIssueType config)) f)).
Proof.
  intros Htrust run. subst run. unfold ScanFile. split.
  - intros issues Hhit. split; [by apply scan_cached|].
    unfold trace. rewrite (scan_cached _ _ _ _ issues) by done.
    destruct (replay_trace GetFilterableIssueType config issues f) as [byFile Htrace].
    unfold trace in Htrace. rewrite Htrace.
    rewrite !Forall_app, !Forall_fmap. repeat split.
    + by apply Forall_true.
    + by repeat constructor.
    + by apply Forall_true.
  - intros Hmiss. by apply scan_uncached.
Qed.

Lemma ScanFile_replays_cache_or_delegates_witness :
  let run :=
    @ScanFile canonicalRange Sample.filterableType Sample.config Sample.scanner
      "/home/user/proj/go.mod" in
  (run Sample.scanned
   = @processResults canonicalRange Sample.filterableType Sample.config
       (ScanData.mk "" [Sample.critical; Sample.high] None 0 0 None) Sample.scanned
   ∧ Forall (λ e, isScannerScan e = false) (trace run Sample.scanned))
  ∧ ∃ rest, trace run Sample.trusted
            = ScannerScan "/home/user/proj/go.mod" "/home/user/proj" :: rest.
Proof.
  destruct (@ScanFile_replays_cache_or_delegates canonicalRange Sample.filterableType
              Sample.config Sample.scanner Sample.scanned "/home/user/proj/go.mod"
              eq_refl) as [Hhit _].
  destruct (@ScanFile_replays_cache_or_delegates canonicalRange Sample.filterableType
              Sample.config Sample.scanner Sample.trusted "/home/user/proj/go.mod"
              eq_refl) as [_ Hmiss].
  split; [apply Hhit; reflexivity|].
  eexists. unfold trace. rewrite Hmiss by reflexivity. reflexivity.
Defined.

(** C10. A replay of cached issues by [scan] carries no product: the scan
    data has the empty [Product], whatever the products of the cached issues,
    and the one scan result of the replay is sent with
    [SendSuccessForAllProducts], between the diagnostics and the hovers;
    [SendSuccess] is not called. *)
Theorem scan_replay_sends_success_for_all_products `{MapRange}
    (GetFilterableIssueType : Issue.t → FilterableIssueType) (config : Config.t)
    (scanner : string → string → list ScanData.t) (f : Folder.t) (path : string)
    (issues : list Issue.t) :
  IsTrusted config f = true →
  Folder.documentDiagnosticCache f !! path = Some issues →
  let run := scan GetFilterableIssueType config scanner path in
  run f = processResults GetFilterableIssueType config (cachedScanData issues) f
  ∧ ScanData.Product (cachedScanData issues) = ""
  ∧ (∃ diagnostics productIssues hovers,
       trace run f
       = diagnostics
         ++ [ScanNotifierSendSuccessForAllProducts (Folder.path f) productIssues]
         ++ hovers
       ∧ Forall (λ e, isDiagnostics e = true) diagnostics
       ∧ Forall (λ e, isHover e = true) hovers)
  ∧ Forall (λ e, isSendSuccess e = false) (trace run f).
Proof.
  intros Htrust Hhit run. subst run.
  split; [by apply scan_cached|]. split; [done|].
  unfold trace. rewrite (scan_cached _ _ _ _ issues) by done.
  destruct (replay_trace GetFilterableIssueType config issues f) as [byFile Htrace].
  unfold trace in Htrace. rewrite Htrace. split.
  - eexists _, _, _. split; [done|].
    rewrite !Forall_fmap. split; by apply Forall_true.
  - rewrite !Forall_app, !Forall_fmap. repeat split.
    + by apply Forall_true.
    + by repeat constructor.
    + by apply Forall_true.
Qed.

Lemma scan_replay_sends_success_for_all_products_witness :
  let run :=
    @scan canonicalRange Sample.filterableType Sample.config Sample.scanner
      "/home/user/proj/go.mod" in
  trace run Sample.scanned
  = [NotifierSendDiagnostics "/home/user/proj/go.mod" [Sample.critical; Sample.high];
     ScanNotifierSendSuccessForAllProducts "/home/user/proj" [Sample.critical; Sample.high];
     HoverChannelSend "/home/user/proj/go.mod" [Sample.critical; Sample.high]]
  ∧ Forall (λ e, isSendSuccess e = false) (trace run Sample.scanned).
Proof.
  split; [reflexivity|].
  apply (@scan_replay_sends_success_for_all_products canonicalRange Sample.filterableType
           Sample.config Sample.scanner Sample.scanned "/home/user/proj/go.mod"
           [Sample.critical; Sample.high]); reflexivity.
Defined.

(** ** Clearing by issue type *)

Lemma filter_same_length {A} (P : A → Prop) `{!∀ x, Decision (P x)} (l : list A) :
  length (filter P l) = length l → filter P l = l.
Proof.
  induction l as [|x l IH]; [done|]. rewrite filter_cons.
  destruct (decide (P x)) as [HP|HP]; simpl.
  - intros Hlen. f_equal. apply IH. lia.
  - intros Hlen. pose proof (length_filter P l). lia.
Qed.

Lemma filter_filter_same {A} (P : A → Prop) `{!∀ x, Decision (P x)} (l : list A) :
  filter P (filter P l) = filter P l.
Proof.
  induction l as [|x l IH]; [done|]. rewrite filter_cons.
  destruct (decide (P x)) as [HP|HP]; [|done].
  by rewrite filter_cons_True, IH.
Qed.

Lemma fold_left_insert_if_lookup {V} (changed : V → bool) (g : V → V)
    (l : list (string * V)) (m : gmap string V) (key : string) :
  NoDup l.*1 →
  fold_left (λ acc '(k, v), if changed v then <[k := g v]> acc else acc) l m !! key
  = match (list_to_map l : gmap string V) !! key with
    | Some v => if changed v then Some (g v) else m !! key
    | None => m !! key
    end.
Proof.
  revert m. induction l as [|[k v] l IH]; intros m Hnodup; simpl; [done|].
  apply NoDup_cons in Hnodup as [Hk Hnodup]. rewrite IH by done.
  destruct (decide (k = key)) as [->|Hne].
  - rewrite lookup_insert_eq, (not_elem_of_list_to_map_1 l key Hk).
    destruct (changed v); [by rewrite lookup_insert_eq | done].
  - rewrite (lookup_insert_ne (list_to_map l)) by done.
    destruct (list_to_map l !! key) as [w|];
      destruct (changed v); try done; by rewrite lookup_insert_ne.
Qed.

Section ClearFacts.
Context `{MapRange}.
Variable GetFilterableIssueType : Issue.t → FilterableIssueType.
Variable removedType : FilterableIssueType.

Local Abbreviation remaining :=
  (filter (λ issue : Issue.t, GetFilterableIssueType issue ≠ removedType)).
Local Abbreviation changed :=
  (λ issues : list Issue.t, bool_decide (length issues ≠ length (remaining issues))).

Lemma newIssues_filter (previousIssues acc : list Issue.t) :
  fold_left
    (λ newIssues issue,
       if decide (GetFilterableIssueType issue ≠ removedType)
       then newIssues ++ [issue] else newIssues)
    previousIssues acc
  = acc ++ remaining previousIssues.
Proof.
  revert acc. induction previousIssues as [|i l IH]; intros acc; simpl.
  - by rewrite app_nil_r.
  - rewrite IH, filter_cons. case_decide; [by rewrite <- app_assoc | done].
Qed.

Lemma clearLoop_run (entries : list (string * list Issue.t)) (f : Folder.t) :
  forEach entries
    (λ '(filePath, previousIssues),
       let newIssues :=
         fold_left
           (λ newIssues issue,
              if decide (GetFilterableIssueType issue ≠ removedType)
              then newIssues ++ [issue] else newIssues)
           previousIssues [] in
       if decide (length previousIssues ≠ length newIssues)
       then
         cacheStore filePath newIssues ;;
         sendDiagnosticsForFile filePath newIssues ;;
         sendHoversForFile filePath newIssues
       else mret tt) f
  = (tt,
     Folder.withCache f
       (fold_left
          (λ cache '(filePath, issues),
             if changed issues then <[filePath := remaining issues]> cache else cache)
          entries (Folder.documentDiagnosticCache f)),
     entries ≫= republished GetFilterableIssueType removedType).
Proof.
  revert f. induction entries as [|[filePath issues] entries IH]; intros f.
  - by destruct f.
  - cbn [forEach fold_left]. rewrite newIssues_filter, bind_cons. cbn [app].
    unfold republished at 1. cbn [fst snd].
    destruct (Nat.eq_dec (length issues) (length (remaining issues))) as [Hsame|Hlen].
    + rewrite !decide_False by (intros Hne; by apply Hne).
      rewrite bool_decide_eq_false_2 by (intros Hne; by apply Hne).
      eapply (run_bind_eq _ _ f f _ tt tt []); [done|]. by rewrite IH.
    + rewrite !decide_True by done. rewrite bool_decide_eq_true_2 by done.
      eapply (run_bind_eq _ _ f
                (Folder.withCache f
                   (<[filePath := remaining issues]> (Folder.documentDiagnosticCache f)))
                _ tt tt
                [NotifierSendDiagnostics filePath (remaining issues);
                 HoverChannelSend filePath (remaining issues)]); [done|].
      by rewrite IH.
Qed.

Lemma clear_cache (cache : gmap string (list Issue.t)) :
  fold_left
    (λ cache '(filePath, issues),
       if changed issues then <[filePath := remaining issues]> cache else cache)
    (range_order InClearDiagnosticsByIssueType cache) cache
  = remaining <$> cache.
Proof.
  apply map_eq. intros key.
  destruct (range_order_to_map InClearDiagnosticsByIssueType cache) as [Hnodup Hmap].
  rewrite (fold_left_insert_if_lookup changed remaining) by done.
  rewrite Hmap, lookup_fmap. destruct (cache !! key) as [issues|] eqn:Hkey; [|done].
  simpl. case_bool_decide as Hlen; [done|].
  f_equal. symmetry. apply filter_same_length. lia.
Qed.

Lemma clear_again (entries : list (string * list Issue.t)) (cache : gmap string (list Issue.t)) :
  Forall (λ entry, remaining entry.2 = entry.2) entries →
  fold_left
    (λ cache '(filePath, issues),
       if changed issues then <[filePath := remaining issues]> cache else cache)
    entries cache = cache
  ∧ entries ≫= republished GetFilterableIssueType removedType = [].
Proof.
  induction 1 as [|[filePath issues] entries Hsame _ [IHcache IHtrace]]; [done|].
  simpl in Hsame. cbn [fold_left]. rewrite bind_cons. unfold republished at 1.
  cbn [fst snd]. rewrite Hsame.
  rewrite bool_decide_eq_false_2 by (intros Hne; by apply Hne).
  case_decide; [done|]. by rewrite IHcache, IHtrace.
Qed.
End ClearFacts.

(** C9. [ClearDiagnosticsByIssueType] leaves in every cache entry the issues
    of the other filterable types, in their order, and nothing else of the
    folder changes.  It sends diagnostics and hover, with the remaining
    issues, for the files whose entry lost an issue, and nothing for the
    other files.  A second call with the same type changes nothing and sends
    nothing. *)
Theorem ClearDiagnosticsByIssueType_removes_type_republishes_changed `{MapRange}
    (GetFilterableIssueType : Issue.t → FilterableIssueType)
    (removedType : FilterableIssueType) (f : Folder.t) :
  let run := ClearDiagnosticsByIssueType GetFilterableIssueType removedType in
  let remaining := filter (λ issue, GetFilterableIssueType issue ≠ removedType) in
  let f' := exec run f in
  f' = Folder.mk (Folder.path f) (Folder.name f) (Folder.status f)
         (remaining <$> Folder.documentDiagnosticCache f)
  ∧ trace run f
    = range_order InClearDiagnosticsByIssueType (Folder.documentDiagnosticCache f)
      ≫= (λ entry,
            if decide (length entry.2 ≠ length (remaining entry.2))
            then [NotifierSendDiagnostics entry.1 (remaining entry.2);
                  HoverChannelSend entry.1 (remaining entry.2)]
            else [])
  ∧ run f' = (tt, f', []).
Proof.
  intros run remaining f'. subst remaining.
  assert (Hrun : ∀ g : Folder.t,
    run g
    = (tt,
       Folder.withCache g
         (fold_left
            (λ cache '(filePath, issues),
               if bool_decide
                    (length issues
                     ≠ length (filter (λ issue, GetFilterableIssueType issue ≠ removedType)
                                 issues))
               then <[filePath := filter (λ issue, GetFilterableIssueType issue ≠ removedType)
                                    issues]> cache
               else cache)
            (range_order InClearDiagnosticsByIssueType (Folder.documentDiagnosticCache g))
            (Folder.documentDiagnosticCache g)),
       range_order InClearDiagnosticsByIssueType (Folder.documentDiagnosticCache g)
       ≫= republished GetFilterableIssueType removedType)).
  { intros g. subst run. unfold ClearDiagnosticsByIssueType.
    eapply (run_bind_eq _ _ _ _ _ _ _ []); [reflexivity|]. apply clearLoop_run. }
  assert (Hf' : f' = Folder.withCache f
                       (filter (λ issue, GetFilterableIssueType issue ≠ removedType)
                          <$> Folder.documentDiagnosticCache f)).
  { subst f'. unfold exec. rewrite Hrun. simpl. f_equal. apply clear_cache. }
  split; [done|]. split; [unfold trace; by rewrite Hrun|].
  rewrite Hrun.
  destruct (clear_again GetFilterableIssueType removedType
              (range_order InClearDiagnosticsByIssueType (Folder.documentDiagnosticCache f'))
              (Folder.documentDiagnosticCache f')) as [Hcache Htrace].
  { apply Forall_forall. intros [filePath issues] Hin. simpl.
    rewrite range_order_perm in Hin. apply elem_of_map_to_list in Hin.
    rewrite Hf' in Hin. simpl in Hin. rewrite lookup_fmap in Hin.
    destruct (Folder.documentDiagnosticCache f !! filePath) as [previous|]; [|done].
    simpl in Hin. injection Hin as <-. apply filter_filter_same. }
  rewrite Hcache, Htrace. by destruct f'.
Qed.

(** The file [T; U] of the spec: the first call leaves [U] and republishes
    the file once, the second call sends nothing. *)
Example ClearDiagnosticsByIssueType_twice :
  let f : Folder.t :=
    Folder.mk "/home/user/proj" "proj" Scanned
      {[ "/home/user/proj/main.go" := [Sample.medium; Sample.low] ]} in
  let run := @ClearDiagnosticsByIssueType canonicalRange Sample.filterableType "code" in
  run f
  = (tt,
     Folder.mk "/home/user/proj" "proj" Scanned {[ "/home/user/proj/main.go" := [Sample.low] ]},
     [NotifierSendDiagnostics "/home/user/proj/main.go" [Sample.low];
      HoverChannelSend "/home/user/proj/main.go" [Sample.low]])
  ∧ trace run (exec run f) = [].
Proof. split; reflexivity. Qed.

(** ** The filter on the sample data *)

Lemma FilterIssues_keeps_visible_enabled_in_order_witness :
  FilterIssues Sample.filterableType Sample.config
    [Sample.critical; Sample.medium; Sample.high; Sample.low]
    {[ "oss" := true; "code" := true; "" := true ]}
  = [Sample.critical; Sample.high].
Proof.
  destruct (FilterIssues_keeps_visible_enabled_in_order Sample.filterableType Sample.config
              [Sample.critical; Sample.medium; Sample.high; Sample.low]
              {[ "oss" := true; "code" := true; "" := true ]}) as (_ & _ & _ & Hvisible).
  rewrite Hvisible; [reflexivity | reflexivity |].
  intros issue Hin. repeat (apply elem_of_cons in Hin as [->|Hin]; [reflexivity|]).
  by apply elem_of_nil in Hin.
Defined.

(** * Further properties of the folder *)

(** ** What a batch does to each cache entry *)

Lemma exec_bind {A B} (m : M A) (k : A → M B) f :
  exec (m ≫= k) f = exec (k (result m f)) (exec m f).
Proof. unfold exec at 1. by rewrite run_bind. Qed.

Lemma cacheIssues_elem_of (cache : gmap string (list Issue.t)) issue :
  issue ∈ cacheIssues cache ↔ ∃ key issues, cache !! key = Some issues ∧ issue ∈ issues.
Proof.
  unfold cacheIssues. rewrite list_elem_of_bind. split.
  - intros ([key issues] & Hin & Hentry). apply elem_of_map_to_list in Hentry.
    by exists key, issues.
  - intros (key & issues & Hentry & Hin). exists (key, issues).
    split; [done | by apply elem_of_map_to_list].
Qed.

Lemma storeLoop_lookup dedupMap issues (cache : gmap string (list Issue.t)) key :
  fold_left (storeIssue dedupMap) issues cache !! key
  = match reportedFor key issues with
    | [] => cache !! key
    | _ :: _ =>
        Some (match cache !! key with None => [] | Some l => l end
              ++ List.filter (accepts dedupMap) (reportedFor key issues))
    end.
Proof.
  revert cache. induction issues as [|i issues IH]; intros cache; [done|].
  cbn [fold_left]. rewrite IH. unfold reportedFor at 3 4. cbn [List.filter].
  fold (reportedFor key issues). unfold storeIssue.
  case_bool_decide as Hkey.
  - rewrite Hkey, lookup_insert_eq. cbn [List.filter].
    destruct (reportedFor key issues) as [|j rest];
      destruct (accepts dedupMap i); simpl; by rewrite <- ?app_assoc, ?app_nil_r.
  - by rewrite lookup_insert_ne.
Qed.

Lemma processResults_failure `{MapRange}
    (GetFilterableIssueType : Issue.t → FilterableIssueType) (config : Config.t)
    scanData (f : Folder.t) :
  ScanData.Err scanData ≠ None →
  exec (processResults GetFilterableIssueType config scanData) f = f.
Proof. intros Herr. unfold processResults. by destruct (ScanData.Err scanData). Qed.

(** X1. After a successful batch the cache entry of a file is the old entry
    followed by the accepted issues reported for that file, in the order of
    the batch; a file for which the batch reports nothing keeps its entry,
    or stays without entry. *)
Theorem processResults_entry_of_file `{MapRange}
    (GetFilterableIssueType : Issue.t → FilterableIssueType) (config : Config.t)
    (scanData : ScanData.t) (f : Folder.t) (key : string) :
  ScanData.Err scanData = None →
  let f' := exec (processResults GetFilterableIssueType config scanData) f in
  let reported :=
    List.filter (λ issue, bool_decide (Issue.AffectedFilePath issue = key))
      (ScanData.Issues scanData) in
  Folder.documentDiagnosticCache f' !! key
  = match reported with
    | [] => Folder.documentDiagnosticCache f !! key
    | _ :: _ =>
        Some (match Folder.documentDiagnosticCache f !! key with
              | None => []
              | Some old => old
              end
              ++ List.filter
                   (λ issue,
                      bool_decide
                        (getUniqueIssueID issue
                         ∉ cachedIDs (Folder.documentDiagnosticCache f)))
                   reported)
    end.
Proof.
  intros Herr f' reported. subst f' reported. unfold exec.
  rewrite processResults_success by done. simpl. rewrite storeLoop_lookup.
  fold (reportedFor key (ScanData.Issues scanData)).
  destruct (reportedFor key (ScanData.Issues scanData)) as [|i rest]; [done|].
  do 2 f_equal. apply filter_ext. intros issue. apply eq_true_iff_eq.
  by rewrite accepts_spec, bool_decide_eq_true.
Qed.

Lemma processResults_entry_of_file_witness :
  Folder.documentDiagnosticCache
    (exec (@processResults canonicalRange Sample.filterableType Sample.config
             (Sample.batch [Sample.criticalAgain; Sample.medium; Sample.low]))
       Sample.scanned)
  !! "/home/user/proj/main.go" = Some [Sample.medium; Sample.low].
Proof.
  rewrite (@processResults_entry_of_file canonicalRange Sample.filterableType
             Sample.config
             (Sample.batch [Sample.criticalAgain; Sample.medium; Sample.low])
             Sample.scanned "/home/user/proj/main.go" eq_refl).
  reflexivity.
Defined.

Section BatchFacts.
Context `{MapRange}.
Variable GetFilterableIssueType : Issue.t → FilterableIssueType.
Variable config : Config.t.

Local Abbreviation process := (processResults GetFilterableIssueType config).

Lemma processResults_lookup scanData (f : Folder.t) key :
  ScanData.Err scanData = None →
  Folder.documentDiagnosticCache (exec (process scanData) f) !! key
  = match reportedFor key (ScanData.Issues scanData) with
    | [] => Folder.documentDiagnosticCache f !! key
    | _ :: _ =>
        Some (match Folder.documentDiagnosticCache f !! key with
              | None => []
              | Some l => l
              end
              ++ List.filter (accepts (result createDedupMap f))
                   (reportedFor key (ScanData.Issues scanData)))
    end.
Proof.
  intros Herr. unfold exec. rewrite processResults_success by done. simpl.
  apply storeLoop_lookup.
Qed.

Lemma processResults_frame scanData (f : Folder.t) :
  Folder.path (exec (process scanData) f) = Folder.path f
  ∧ Folder.name (exec (process scanData) f) = Folder.name f
  ∧ Folder.status (exec (process scanData) f) = Folder.status f.
Proof.
  destruct (ScanData.Err scanData) as [err|] eqn:Herr.
  - by rewrite processResults_failure by (by rewrite Herr).
  - unfold exec. by rewrite processResults_success.
Qed.

Lemma reportedFor_elem_of key issues issue :
  issue ∈ reportedFor key issues ↔ issue ∈ issues ∧ Issue.AffectedFilePath issue = key.
Proof.
  unfold reportedFor. by rewrite !list_elem_of_In, filter_In, bool_decide_eq_true.
Qed.

Lemma processResults_keyed scanData (f : Folder.t) :
  keyed (Folder.documentDiagnosticCache f) →
  keyed (Folder.documentDiagnosticCache (exec (process scanData) f)).
Proof.
  intros Hkeyed. destruct (ScanData.Err scanData) as [err|] eqn:Herr.
  { by rewrite processResults_failure by (by rewrite Herr). }
  intros key issues issue Hentry Hin. rewrite processResults_lookup in Hentry by done.
  assert (Hnew : ∀ i, i ∈ List.filter (accepts (result createDedupMap f))
                            (reportedFor key (ScanData.Issues scanData)) →
                      Issue.AffectedFilePath i = key).
  { intros i Hi. apply list_elem_of_In, filter_In in Hi as [Hi _].
    apply list_elem_of_In in Hi. by apply reportedFor_elem_of in Hi as [_ ?]. }
  set (accepted := List.filter _ _) in *. clearbody accepted.
  destruct (reportedFor key (ScanData.Issues scanData)) as [|j rest].
  { by apply (Hkeyed key issues). }
  injection Hentry as <-. apply elem_of_app in Hin as [Hold|Hin]; [|by apply Hnew].
  destruct (Folder.documentDiagnosticCache f !! key) as [old|] eqn:Hkey.
  - by apply (Hkeyed key old).
  - by apply elem_of_nil in Hold.
Qed.

Lemma extends_refl (f : Folder.t) : extends f f.
Proof. repeat split. intros key old Hold. exists []. by rewrite app_nil_r. Qed.

Lemma extends_trans (f g h : Folder.t) : extends f g → extends g h → extends f h.
Proof.
  intros (Hp1 & Hn1 & Hs1 & Hc1) (Hp2 & Hn2 & Hs2 & Hc2).
  repeat split; try congruence.
  intros key old Hold. destruct (Hc1 key old Hold) as [added1 Hg].
  destruct (Hc2 key _ Hg) as [added2 Hh]. exists (added1 ++ added2).
  by rewrite app_assoc.
Qed.

Lemma processResults_extends scanData (f : Folder.t) : extends f (exec (process scanData) f).
Proof.
  destruct (processResults_frame scanData f) as (Hpath & Hname & Hstatus).
  repeat split; try done. intros key old Hold.
  destruct (ScanData.Err scanData) as [err|] eqn:Herr.
  { rewrite processResults_failure by (by rewrite Herr).
    exists []. by rewrite app_nil_r. }
  rewrite processResults_lookup, Hold by done.
  destruct (reportedFor key (ScanData.Issues scanData)); [|by eexists].
  exists []. by rewrite app_nil_r.
Qed.

Lemma forEach_processResults_extends results (f : Folder.t) :
  extends f (exec (forEach results process) f).
Proof.
  revert f. induction results as [|scanData results IH]; intros f; [apply extends_refl|].
  cbn [forEach]. rewrite exec_bind.
  eapply extends_trans; [apply processResults_extends | apply IH].
Qed.
End BatchFacts.

(** X2. Every issue that [processResults] caches lies under its own
    [AffectedFilePath]: a cache in which this holds keeps it through any
    batch, failed or successful. *)
Theorem processResults_keeps_issues_under_their_file `{MapRange}
    (GetFilterableIssueType : Issue.t → FilterableIssueType) (config : Config.t)
    (scanData : ScanData.t) (f : Folder.t) :
  keyed (Folder.documentDiagnosticCache f) →
  keyed
    (Folder.documentDiagnosticCache
       (exec (processResults GetFilterableIssueType config scanData) f)).
Proof. apply processResults_keyed. Qed.

Lemma processResults_keeps_issues_under_their_file_witness :
  keyed
    (Folder.documentDiagnosticCache
       (exec (@processResults canonicalRange Sample.filterableType Sample.config
                (Sample.batch [Sample.critical; Sample.medium])) Sample.trusted)).
Proof.
  apply (@processResults_keeps_issues_under_their_file canonicalRange).
  intros key issues issue Hentry. vm_compute in Hentry. discriminate.
Defined.

(** X3. After a successful batch [AllIssuesFor] has an entry for the file of
    every issue of the batch, and the entry holds every issue of the batch
    whose unique identity was not cached before. *)
Theorem processResults_then_AllIssuesFor `{MapRange}
    (GetFilterableIssueType : Issue.t → FilterableIssueType) (config : Config.t)
    (scanData : ScanData.t) (f : Folder.t) (issue : Issue.t) :
  ScanData.Err scanData = None →
  issue ∈ ScanData.Issues scanData →
  let f' := exec (processResults GetFilterableIssueType config scanData) f in
  ∃ issues,
    result (AllIssuesFor (Issue.AffectedFilePath issue)) f' = Some issues
    ∧ (getUniqueIssueID issue ∉ cachedIDs (Folder.documentDiagnosticCache f) →
       issue ∈ issues).
Proof.
  intros Herr Hin f'. subst f'.
  unfold result, AllIssuesFor, DocumentDiagnosticsFromCache, cacheLoad. simpl.
  rewrite processResults_lookup by done.
  assert (Hrep : issue ∈ reportedFor (Issue.AffectedFilePath issue) (ScanData.Issues scanData))
    by by apply reportedFor_elem_of.
  assert (Hnew : getUniqueIssueID issue ∉ cachedIDs (Folder.documentDiagnosticCache f) →
                 issue ∈ List.filter (accepts (result createDedupMap f))
                           (reportedFor (Issue.AffectedFilePath issue)
                              (ScanData.Issues scanData))).
  { intros Hid. apply list_elem_of_In, filter_In. split; [by apply list_elem_of_In|].
    by apply accepts_spec. }
  set (accepted := List.filter _ _) in *. clearbody accepted.
  destruct (reportedFor _ _) as [|j rest]; [by apply elem_of_nil in Hrep|].
  eexists. split; [done|]. intros Hid. apply elem_of_app. right. by apply Hnew.
Qed.

Lemma processResults_then_AllIssuesFor_witness :
  ∃ issues,
    result (AllIssuesFor "/home/user/proj/main.go")
      (exec (@processResults canonicalRange Sample.filterableType Sample.config
               (Sample.batch [Sample.criticalAgain; Sample.medium])) Sample.scanned)
    = Some issues
    ∧ (getUniqueIssueID Sample.medium
       ∉ cachedIDs (Folder.documentDiagnosticCache Sample.scanned) →
       Sample.medium ∈ issues).
Proof.
  apply (@processResults_then_AllIssuesFor canonicalRange Sample.filterableType
           Sample.config (Sample.batch [Sample.criticalAgain; Sample.medium])
           Sample.scanned Sample.medium); [reflexivity | by_computation].
Defined.

(** X4. A scan never takes anything from the folder: whatever the scanner
    reports, [ScanFile] keeps path, name and status, and every cache
    entry keeps its issues, in their order, as the beginning of the new
    entry. *)
Theorem ScanFile_only_adds_issues `{MapRange}
    (GetFilterableIssueType : Issue.t → FilterableIssueType) (config : Config.t)
    (scanner : string → string → list ScanData.t) (f : Folder.t) (path : string) :
  let f' := exec (ScanFile GetFilterableIssueType config scanner path) f in
  Folder.path f' = Folder.path f
  ∧ Folder.name f' = Folder.name f
  ∧ Folder.status f' = Folder.status f
  ∧ ∀ key old, Folder.documentDiagnosticCache f !! key = Some old →
      ∃ added, Folder.documentDiagnosticCache f' !! key = Some (old ++ added).
Proof.
  intros f'. subst f'. fold (extends f (exec (ScanFile GetFilterableIssueType config scanner path) f)).
  unfold ScanFile, exec.
  destruct (IsTrusted config f) eqn:Htrust.
  - destruct (Folder.documentDiagnosticCache f !! path) as [issues|] eqn:Hentry.
    + rewrite (scan_cached _ _ _ _ issues) by done. apply processResults_extends.
    + rewrite scan_uncached by done. apply forEach_processResults_extends.
  - rewrite scan_untrusted by done. apply extends_refl.
Qed.

(** ** Replay, failure, analytics and publish *)

Lemma storeLoop_known dedupMap issues (cache : gmap string (list Issue.t)) :
  (∀ issue, issue ∈ issues →
     accepts dedupMap issue = false
     ∧ is_Some (cache !! Issue.AffectedFilePath issue)) →
  fold_left (storeIssue dedupMap) issues cache = cache.
Proof.
  induction issues as [|i issues IH]; intros Hknown; [done|].
  cbn [fold_left]. destruct (Hknown i) as [Hacc [l Hentry]]; [by left|].
  unfold storeIssue at 2. rewrite Hacc, Hentry, app_nil_r, insert_id by done.
  apply IH. intros issue Hin. apply Hknown. by right.
Qed.

(** X5. A scan of a file that has a cache entry changes nothing in the
    folder, when every cached issue lies under its own file: the replay
    finds every issue in the dedup map and stores each entry back as it
    is. *)
Theorem ScanFile_cached_leaves_folder `{MapRange}
    (GetFilterableIssueType : Issue.t → FilterableIssueType) (config : Config.t)
    (scanner : string → string → list ScanData.t) (f : Folder.t) (path : string) :
  keyed (Folder.documentDiagnosticCache f) →
  is_Some (Folder.documentDiagnosticCache f !! path) →
  exec (ScanFile GetFilterableIssueType config scanner path) f = f.
Proof.
  intros Hkeyed [issues Hentry]. unfold ScanFile, exec.
  destruct (IsTrusted config f) eqn:Htrust; [|by rewrite scan_untrusted].
  rewrite (scan_cached _ _ _ _ issues), processResults_success by done. simpl.
  rewrite storeLoop_known; [by destruct f|].
  intros issue Hin. split.
  - destruct (accepts (result createDedupMap f) issue) eqn:Hacc; [|done].
    apply accepts_spec in Hacc. exfalso. apply Hacc.
    apply list_elem_of_fmap. exists issue. split; [done|].
    apply cacheIssues_elem_of. by exists path, issues.
  - rewrite (Hkeyed path issues issue Hentry Hin). by exists issues.
Qed.

Lemma ScanFile_cached_leaves_folder_witness :
  exec (@ScanFile canonicalRange Sample.filterableType Sample.config Sample.scanner
          "/home/user/proj/go.mod") Sample.scanned = Sample.scanned.
Proof.
  apply (@ScanFile_cached_leaves_folder canonicalRange).
  - apply (@processResults_keyed canonicalRange Sample.filterableType Sample.config
             (Sample.batch [Sample.critical; Sample.high]) Sample.trusted).
    intros key issues issue Hentry. vm_compute in Hentry. discriminate.
  - by_computation.
Defined.

(** X6. A trusted scan of an uncached file whose scanner reports only
    failures invokes the scanner, sends one scan-failure notification per
    report and leaves the folder as it was; the file is still uncached, so
    the next scan of it invokes the scanner again. *)
Theorem ScanFile_failed_scan_is_retried `{MapRange}
    (GetFilterableIssueType : Issue.t → FilterableIssueType) (config : Config.t)
    (scanner : string → string → list ScanData.t) (f : Folder.t) (path : string) :
  IsTrusted config f = true →
  Folder.documentDiagnosticCache f !! path = None →
  Forall (λ scanData, ScanData.Err scanData ≠ None) (scanner path (Folder.path f)) →
  let run := ScanFile GetFilterableIssueType config scanner path in
  run f
  = (tt, f,
     ScannerScan path (Folder.path f)
     :: ((λ scanData, ScanNotifierSendError (ScanData.Product scanData) (Folder.path f))
           <$> scanner path (Folder.path f)))
  ∧ ∃ rest, trace run (exec run f) = ScannerScan path (Folder.path f) :: rest.
Proof.
  intros Htrust Hmiss Hfail run. subst run. unfold ScanFile.
  assert (Hrun : ∀ results,
    Forall (λ scanData, ScanData.Err scanData ≠ None) results →
    forEach results (processResults GetFilterableIssueType config) f
    = (tt, f,
       (λ scanData, ScanNotifierSendError (ScanData.Product scanData) (Folder.path f))
         <$> results)).
  { induction 1 as [|scanData results Herr _ IH]; [done|].
    cbn [forEach]. eapply (run_bind_eq _ _ _ _ _ _ _ [_]); [|exact IH].
    unfold processResults. by destruct (ScanData.Err scanData). }
  assert (Hfirst : scan GetFilterableIssueType config scanner path f
                   = (tt, f,
                      ScannerScan path (Folder.path f)
                      :: ((λ scanData,
                             ScanNotifierSendError (ScanData.Product scanData) (Folder.path f))
                            <$> scanner path (Folder.path f)))).
  { rewrite scan_uncached by done. unfold exec, trace. by rewrite Hrun. }
  split; [done|]. unfold exec, trace. rewrite Hfirst. simpl. rewrite Hfirst. by eexists.
Qed.

Lemma ScanFile_failed_scan_is_retried_witness :
  @ScanFile canonicalRange Sample.filterableType Sample.config
    (λ _ _, [Sample.failed]) "/home/user/proj/go.mod" Sample.trusted
  = (tt, Sample.trusted,
     [ScannerScan "/home/user/proj/go.mod" "/home/user/proj";
      ScanNotifierSendError "oss" "/home/user/proj"]).
Proof.
  apply (@ScanFile_failed_scan_is_retried canonicalRange Sample.filterableType
           Sample.config (λ _ _, [Sample.failed]) Sample.trusted "/home/user/proj/go.mod");
    [reflexivity | reflexivity |].
  repeat constructor. discriminate.
Defined.

Lemma countLoop_fields dedupMap issues scanData :
  ScanData.Err (fold_left (countIssue dedupMap) issues scanData) = ScanData.Err scanData
  ∧ ScanData.DurationMs (fold_left (countIssue dedupMap) issues scanData)
    = ScanData.DurationMs scanData
  ∧ ScanData.TimestampFinished (fold_left (countIssue dedupMap) issues scanData)
    = ScanData.TimestampFinished scanData.
Proof.
  revert scanData. induction issues as [|i issues IH]; intros scanData; [done|].
  cbn [fold_left]. destruct (IH (countIssue dedupMap scanData i)) as (-> & -> & ->).
  unfold countIssue. destruct (accepts dedupMap i); [|done].
  unfold incrementSeverityCount, initializeSeverityCountForProduct.
  by destruct (_ !! _).
Qed.

Lemma countFor_initialize scanData productType product :
  countFor (initializeSeverityCountForProduct scanData productType) product
  = countFor scanData product.
Proof.
  unfold countFor.
  pose proof (counts_initialize scanData productType) as Hinit. simpl in Hinit.
  rewrite Hinit. destruct (ScanData.counts scanData !! _) eqn:Hkey; [done|].
  destruct (decide ((if decide (productType = "") then "unknown" else productType) = product))
    as [<-|Hne].
  - by rewrite lookup_insert_eq, Hkey.
  - by rewrite lookup_insert_ne.
Qed.

(** X7. A successful batch of a product sends, before it publishes, one
    analytics event with the duration and timestamp of the batch; its
    count of a severity is the incoming count of the product, incremented
    once for every accepted issue of that severity counted under the
    product.  A batch without product sends no analytics event. *)
Theorem processResults_analytics_event `{MapRange}
    (GetFilterableIssueType : Issue.t → FilterableIssueType) (config : Config.t)
    (scanData : ScanData.t) (f : Folder.t) :
  ScanData.Err scanData = None →
  let run := processResults GetFilterableIssueType config scanData in
  let accepted :=
    List.filter
      (λ issue,
         bool_decide
           (getUniqueIssueID issue ∉ cachedIDs (Folder.documentDiagnosticCache f)))
      (ScanData.Issues scanData) in
  let publish :=
    trace (FilterAndPublishCachedDiagnostics GetFilterableIssueType config
             (ScanData.Product scanData)) (exec run f) in
  (ScanData.Product scanData = "" → trace run f = publish)
  ∧ (ScanData.Product scanData ≠ "" →
     ∃ uniqueIssueCount,
       trace run f
       = AnalyticsSend (ScanData.Product scanData) uniqueIssueCount
           (ScanData.DurationMs scanData) (ScanData.TimestampFinished scanData)
         :: publish
       ∧ ∀ severity,
           counter severity uniqueIssueCount
           = Nat.iter
               (length (filter (countedUnder (ScanData.Product scanData) severity) accepted))
               int_incr (counter severity (countFor scanData (ScanData.Product scanData)))).
Proof.
  intros Herr run accepted publish. subst run publish. unfold trace at 1 3, exec.
  rewrite processResults_success by done. cbn [fst snd].
  set (dedupMap := result createDedupMap f).
  set (counted := fold_left (countIssue dedupMap) (ScanData.Issues scanData) scanData).
  set (f' := Folder.withCache f _).
  assert (Haccepted : accepted = List.filter (accepts dedupMap) (ScanData.Issues scanData)).
  { subst accepted. unfold dedupMap. apply filter_ext. intros issue.
    apply eq_true_iff_eq. by rewrite accepts_spec, bool_decide_eq_true. }
  destruct (countLoop_fields dedupMap (ScanData.Issues scanData) scanData)
    as (Hcerr & Hcdur & Hcts).
  pose proof (countLoop_Product dedupMap (ScanData.Issues scanData) scanData) as Hcprod.
  fold counted in Hcerr, Hcdur, Hcts, Hcprod.
  split.
  - intros Hnone. destruct (sendAnalytics_run counted f') as (_ & _ & Hquiet).
    by rewrite Hquiet by congruence.
  - intros Hprod.
    exists (countFor counted (ScanData.Product scanData)). split.
    + f_equal. unfold trace, sendAnalytics.
      assert (Hiprod : ScanData.Product
                         (initializeSeverityCountForProduct counted (ScanData.Product counted))
                       = ScanData.Product scanData).
      { rewrite <- Hcprod. unfold initializeSeverityCountForProduct. by destruct (_ !! _). }
      assert (Hierr : ScanData.Err
                        (initializeSeverityCountForProduct counted (ScanData.Product counted))
                      = None).
      { rewrite <- Herr, <- Hcerr. unfold initializeSeverityCountForProduct.
        by destruct (_ !! _). }
      assert (Hidur : ScanData.DurationMs
                        (initializeSeverityCountForProduct counted (ScanData.Product counted))
                      = ScanData.DurationMs scanData).
      { rewrite <- Hcdur. unfold initializeSeverityCountForProduct. by destruct (_ !! _). }
      assert (Hits : ScanData.TimestampFinished
                       (initializeSeverityCountForProduct counted (ScanData.Product counted))
                     = ScanData.TimestampFinished scanData).
      { rewrite <- Hcts. unfold initializeSeverityCountForProduct. by destruct (_ !! _). }
      rewrite Hiprod, Hierr, Hidur, Hits. rewrite decide_False by done.
      fold (countFor (initializeSeverityCountForProduct counted (ScanData.Product counted))
              (ScanData.Product scanData)).
      by rewrite countFor_initialize.
    + intros severity. rewrite Haccepted. apply countLoop_counter.
Qed.

Lemma processResults_analytics_event_witness :
  ∃ rest,
    trace (@processResults canonicalRange Sample.filterableType Sample.config
             (Sample.batch [Sample.critical; Sample.high; Sample.criticalAgain; Sample.low]))
      Sample.trusted
    = AnalyticsSend "oss" (SeverityCount.mk 2 1 0 0) 12 1700000000 :: rest.
Proof.
  destruct (@processResults_analytics_event canonicalRange Sample.filterableType
              Sample.config
              (Sample.batch [Sample.critical; Sample.high; Sample.criticalAgain; Sample.low])
              Sample.trusted eq_refl) as [_ Hevent].
  destruct Hevent as (count & Htrace & _); [discriminate|].
  eexists. reflexivity.
Defined.

Lemma fmap_bind_snd {V W} (g : V → list W) (h : V → list W) (l : list (string * V)) :
  (∀ v, h v = g v) → (prod_map id h <$> l) ≫= snd = l ≫= (λ entry, g entry.2).
Proof.
  intros Hgh. induction l as [|[k v] l IH]; [done|].
  rewrite fmap_cons, !bind_cons, IH. simpl. by rewrite Hgh.
Qed.

(** X8. [FilterAndPublishCachedDiagnostics] reads the cache and leaves the
    folder as it is.  Every cached file gets one diagnostics notification
    and one hover notification, each with the issues of its entry that pass
    the filter, also when none passes; the scan result carries the issues
    that pass the filter, of all files. *)
Theorem FilterAndPublishCachedDiagnostics_sends_filtered_cache `{MapRange}
    (GetFilterableIssueType : Issue.t → FilterableIssueType) (config : Config.t)
    (product : Product) (f : Folder.t) :
  let visible issues :=
    FilterIssues GetFilterableIssueType config issues
      (Config.DisplayableIssueTypes config) in
  let cached := map_to_list (Folder.documentDiagnosticCache f) in
  ∃ diagnostics scanResult hovers,
    FilterAndPublishCachedDiagnostics GetFilterableIssueType config product f
    = (tt, f, diagnostics ++ [scanResult] ++ hovers)
    ∧ diagnostics ≡ₚ (λ entry, NotifierSendDiagnostics entry.1 (visible entry.2)) <$> cached
    ∧ hovers ≡ₚ (λ entry, HoverChannelSend entry.1 (visible entry.2)) <$> cached
    ∧ ∃ productIssues,
        productIssues ≡ₚ cached ≫= (λ entry, visible entry.2)
        ∧ scanResult
          = if decide (product = "")
            then ScanNotifierSendSuccessForAllProducts (Folder.path f) productIssues
            else ScanNotifierSendSuccess product (Folder.path f) productIssues.
Proof.
  intros visible cached.
  rewrite FilterAndPublishCachedDiagnostics_run, publishDiagnostics_run.
  fold visible. eexists _, _, _. split; [done|].
  pose proof (map_to_list_fmap visible (Folder.documentDiagnosticCache f)) as Hfmap.
  fold cached in Hfmap.
  split; [|split].
  - rewrite range_order_perm, Hfmap, <- list_fmap_compose.
    apply reflexive_eq, list_fmap_ext. by intros i [k v] _.
  - rewrite range_order_perm, Hfmap, <- list_fmap_compose.
    apply reflexive_eq, list_fmap_ext. by intros i [k v] _.
  - eexists. split; [|unfold scanResultOf; by repeat case_decide].
    rewrite range_order_perm, Hfmap. by rewrite (fmap_bind_snd visible).
Qed.

(** ** Clearing *)

Lemma contains_spec (s substr : string) :
  contains s substr = true ↔ ∃ pre post, s = pre +:+ substr +:+ post.
Proof.
  induction s as [|c s IH]; cbn [contains].
  - destruct (String.prefix substr "") eqn:Hpre.
    + split; [intros _|done]. apply prefix_append in Hpre as [post Hpost].
      by exists "", post.
    + split; [done|]. intros (pre & post & Heq). exfalso.
      destruct pre as [|d pre]; [|by rewrite append_String in Heq].
      assert (String.prefix substr "" = true) as Htrue; [|congruence].
      apply prefix_append. by exists post.
  - destruct (String.prefix substr (String c s)) eqn:Hpre.
    + split; [intros _|done]. apply prefix_append in Hpre as [post Hpost].
      by exists "", post.
    + rewrite IH. split.
      * intros (pre & post & ->). by exists (String c pre), post.
      * intros (pre & post & Heq). destruct pre as [|d pre].
        -- assert (String.prefix substr (String c s) = true) as Htrue; [|congruence].
           apply prefix_append. by exists post.
        -- rewrite append_String in Heq. injection Heq as _ ->. by exists pre, post.
Qed.

Lemma deletes_lookup {V} (keep : string → bool) (entries : list (string * V))
    (m : gmap string V) (key : string) :
  fold_left (λ acc entry, if keep entry.1 then acc else delete entry.1 acc) entries m !! key
  = if bool_decide (key ∈ entries.*1) && negb (keep key) then None else m !! key.
Proof.
  revert m. induction entries as [|[k v] entries IH]; intros m; [done|].
  cbn [fold_left fst]. rewrite IH, fmap_cons. cbn [fst].
  destruct (decide (key = k)) as [->|Hne].
  - rewrite (bool_decide_eq_true_2 (k ∈ k :: _)) by left.
    destruct (keep k) eqn:Hkeep; [by rewrite !andb_false_r|].
    rewrite lookup_delete_eq. by destruct (_ && _).
  - assert (Hiff : bool_decide (key ∈ k :: entries.*1) = bool_decide (key ∈ entries.*1)).
    { apply bool_decide_ext. rewrite elem_of_cons. tauto. }
    rewrite Hiff. destruct (keep k); [done|]. by rewrite lookup_delete_ne.
Qed.

Lemma visit_keys {V} (order : RangeOrder) (m : gmap string V) (key : string) :
  key ∈ (visit order m).*1 ↔ is_Some (m !! key).
Proof.
  rewrite (visit_perm order V m), list_elem_of_fmap. split.
  - intros ([k v] & -> & Hin). apply elem_of_map_to_list in Hin. by exists v.
  - intros [v Hv]. exists (key, v). split; [done | by apply elem_of_map_to_list].
Qed.

Lemma ClearDiagnostics_fold (entries : list (string * list Issue.t)) (f : Folder.t) calls :
  fold_left
    (λ '(f, calls) '(key, _),
       (Folder.withCache f (delete key (Folder.documentDiagnosticCache f)),
        calls ++ [NotifierSendEmptyDiagnostics key]))
    entries (f, calls)
  = (Folder.withCache f
       (fold_left (λ acc entry, if false then acc else delete entry.1 acc) entries
          (Folder.documentDiagnosticCache f)),
     calls ++ (NotifierSendEmptyDiagnostics <$> entries.*1)).
Proof.
  revert f calls. induction entries as [|[k v] entries IH]; intros f calls.
  - simpl. rewrite app_nil_r. by destruct f.
  - cbn [fold_left]. rewrite IH. simpl. by rewrite <- app_assoc.
Qed.

(** X9. [ClearDiagnostics] empties the cache, in whatever order it visits the
    entries, and sends the empty diagnostics once for every file that had an
    entry and for no other file; it does not clear inline values, and path,
    name and status of the folder stay (a full clear does not reset the
    scanned status). *)
Theorem ClearDiagnostics_empties_cache (order : RangeOrder) (f : Folder.t) :
  (ClearDiagnostics order f).1
  = Folder.mk (Folder.path f) (Folder.name f) (Folder.status f) ∅
  ∧ (ClearDiagnostics order f).2
    ≡ₚ NotifierSendEmptyDiagnostics <$> (map_to_list (Folder.documentDiagnosticCache f)).*1
  ∧ length (ClearDiagnostics order f).2 = size (Folder.documentDiagnosticCache f).
Proof.
  unfold ClearDiagnostics. rewrite ClearDiagnostics_fold. cbn [fst snd app].
  assert (Hcalls : NotifierSendEmptyDiagnostics
                     <$> (visit order (Folder.documentDiagnosticCache f)).*1
                   ≡ₚ NotifierSendEmptyDiagnostics
                        <$> (map_to_list (Folder.documentDiagnosticCache f)).*1)
    by by rewrite visit_perm.
  split; [|split; [done|]].
  - unfold Folder.withCache. f_equal. apply map_eq. intros key.
    rewrite (deletes_lookup (λ _, false)), lookup_empty. cbn [negb]. rewrite andb_true_r.
    case_bool_decide as Hin; [done|].
    destruct (Folder.documentDiagnosticCache f !! key) eqn:Hkey; [|done].
    exfalso. apply Hin, visit_keys. by rewrite Hkey.
  - rewrite Hcalls, !length_fmap. apply length_map_to_list.
Qed.

Lemma ClearDiagnosticsFromPathRecursively_fold inlineValueProvider removedPath
    (entries : list (string * list Issue.t)) (f : Folder.t) calls :
  fold_left
    (λ '(f, calls) '(key, _),
       if contains key removedPath
       then
         let '(f', calls') := ClearDiagnosticsFromFile inlineValueProvider key f in
         (f', calls ++ calls')
       else (f, calls))
    entries (f, calls)
  = (Folder.mk (Folder.path f) (Folder.name f)
       (if existsb (λ entry, contains entry.1 removedPath) entries
        then Unscanned else Folder.status f)
       (fold_left
          (λ acc entry,
             if negb (contains entry.1 removedPath) then acc else delete entry.1 acc)
          entries (Folder.documentDiagnosticCache f)),
     calls ++ entries ≫= clearCallsFor inlineValueProvider removedPath).
Proof.
  revert f calls. induction entries as [|[k v] entries IH]; intros f calls.
  - simpl. rewrite app_nil_r. by destruct f.
  - cbn [fold_left existsb fst]. rewrite bind_cons. unfold clearCallsFor at 1. cbn [fst].
    destruct (contains k removedPath); cbn [negb orb].
    + unfold ClearDiagnosticsFromFile. rewrite IH. cbn.
      rewrite <- app_assoc. by destruct (existsb _ entries).
    + by rewrite IH.
Qed.

(** X10. [ClearDiagnosticsFromPathRecursively] removes the cache entries
    whose key contains the removed path as a substring, wherever in the
    key, and keeps the others as they are.  Every removed file gets the
    empty diagnostics, after the clearing of its inline values when the
    scanner provides them.  The status becomes Unscanned when a key
    matches; when none matches, the folder is unchanged and nothing is
    sent. *)
Theorem ClearDiagnosticsFromPathRecursively_removes_matching (order : RangeOrder)
    (inlineValueProvider : bool) (removedPath : string) (f : Folder.t) :
  let f' := (ClearDiagnosticsFromPathRecursively order inlineValueProvider removedPath f).1 in
  let calls := (ClearDiagnosticsFromPathRecursively order inlineValueProvider removedPath f).2 in
  let matches key := ∃ pre post, key = pre +:+ removedPath +:+ post in
  Folder.path f' = Folder.path f
  ∧ Folder.name f' = Folder.name f
  ∧ (∀ key, matches key → Folder.documentDiagnosticCache f' !! key = None)
  ∧ (∀ key, ¬ matches key →
       Folder.documentDiagnosticCache f' !! key = Folder.documentDiagnosticCache f !! key)
  ∧ ((∃ key, is_Some (Folder.documentDiagnosticCache f !! key) ∧ matches key) →
     Folder.status f' = Unscanned)
  ∧ ((∀ key, is_Some (Folder.documentDiagnosticCache f !! key) → ¬ matches key) →
     f' = f ∧ calls = [])
  ∧ calls
    = visit order (Folder.documentDiagnosticCache f)
      ≫= (λ entry,
            if contains entry.1 removedPath
            then (if inlineValueProvider then [ScannerClearInlineValues entry.1] else [])
                 ++ [NotifierSendEmptyDiagnostics entry.1]
            else []).
Proof.
  intros f' calls matches. subst f' calls.
  unfold ClearDiagnosticsFromPathRecursively.
  rewrite ClearDiagnosticsFromPathRecursively_fold. cbn [fst snd app].
  set (entries := visit order (Folder.documentDiagnosticCache f)).
  assert (Hlookup : ∀ key,
    fold_left
      (λ acc entry, if negb (contains entry.1 removedPath) then acc else delete entry.1 acc)
      entries (Folder.documentDiagnosticCache f) !! key
    = if contains key removedPath then None else Folder.documentDiagnosticCache f !! key).
  { intros key. rewrite (deletes_lookup (λ k, negb (contains k removedPath))).
    rewrite negb_involutive. destruct (contains key removedPath); [|by rewrite andb_false_r].
    rewrite andb_true_r. case_bool_decide as Hin; [done|].
    destruct (Folder.documentDiagnosticCache f !! key) eqn:Hkey; [|done].
    exfalso. apply Hin, visit_keys. by rewrite Hkey. }
  assert (Hexists :
    existsb (λ entry, contains entry.1 removedPath) entries = true
    ↔ ∃ key, is_Some (Folder.documentDiagnosticCache f !! key) ∧ matches key).
  { rewrite existsb_exists. split.
    - intros ([k v] & Hin & Hc). exists k. split; [|by apply contains_spec].
      apply (visit_keys order). apply list_elem_of_fmap. exists (k, v).
      split; [done | by apply list_elem_of_In].
    - intros (key & Hsome & Hm). apply (visit_keys order) in Hsome.
      apply list_elem_of_fmap in Hsome as ([k v] & -> & Hin).
      exists (k, v). split; [by apply list_elem_of_In | by apply contains_spec]. }
  split; [done|]. split; [done|]. split; [|split; [|split; [|split; [|done]]]].
  - intros key Hm. apply contains_spec in Hm. by rewrite Hlookup, Hm.
  - intros key Hm. rewrite Hlookup.
    destruct (contains key removedPath) eqn:Hc; [|done].
    exfalso. by apply Hm, contains_spec.
  - intros Hsome. apply Hexists in Hsome. by rewrite Hsome.
  - intros Hnone.
    assert (Hfalse : existsb (λ entry, contains entry.1 removedPath) entries = false).
    { apply not_true_is_false. intros He.
      apply Hexists in He as (key & Hsome & Hm). by destruct (Hnone key Hsome). }
    rewrite Hfalse. split.
    + assert (Hsame :
        fold_left
          (λ acc entry,
             if negb (contains entry.1 removedPath) then acc else delete entry.1 acc)
          entries (Folder.documentDiagnosticCache f)
        = Folder.documentDiagnosticCache f).
      { apply map_eq. intros key. rewrite Hlookup.
        destruct (contains key removedPath) eqn:Hc; [|done].
        destruct (Folder.documentDiagnosticCache f !! key) eqn:Hkey; [|done].
        exfalso. apply (Hnone key); [by rewrite Hkey | by apply contains_spec]. }
      rewrite Hsame. by destruct f.
    + assert (Hall : ∀ l : list (string * list Issue.t),
                (∀ entry, entry ∈ l → contains entry.1 removedPath = false) →
                l ≫= clearCallsFor inlineValueProvider removedPath = []).
      { induction l as [|e l IH]; intros Hl; [done|].
        rewrite bind_cons, IH by (intros; apply Hl; by right).
        unfold clearCallsFor. by rewrite (Hl e) by left. }
      apply Hall. intros [k v] Hin.
      destruct (contains k removedPath) eqn:Hc; [|done].
      exfalso. apply (Hnone k); [|by apply contains_spec].
      apply (visit_keys order), list_elem_of_fmap. by exists (k, v).
Qed.

Lemma ClearDiagnosticsFromPathRecursively_removes_matching_witness :
  let f' :=
    (ClearDiagnosticsFromPathRecursively canonicalOrder true "main" Sample2.twoFiles).1 in
  Folder.documentDiagnosticCache f' !! "/home/user/proj/main.go" = None
  ∧ Folder.documentDiagnosticCache f' !! "/home/user/proj/go.mod"
    = Some [Sample.critical; Sample.high]
  ∧ Folder.status f' = Unscanned
  ∧ ClearDiagnosticsFromPathRecursively canonicalOrder true "/tmp" Sample2.twoFiles
    = (Sample2.twoFiles, []).
Proof.
  destruct (ClearDiagnosticsFromPathRecursively_removes_matching canonicalOrder true
              "main" Sample2.twoFiles) as (_ & _ & Hgone & _ & Hstatus & _).
  destruct (ClearDiagnosticsFromPathRecursively_removes_matching canonicalOrder true
              "/tmp" Sample2.twoFiles) as (_ & _ & _ & _ & _ & Hnone & _).
  split; [apply Hgone; by exists "/home/user/proj/", ".go"|].
  split; [reflexivity|].
  split.
  - apply Hstatus. exists "/home/user/proj/main.go".
    split; [by eexists | by exists "/home/user/proj/", ".go"].
  - reflexivity.
Defined.

Section ClearingFacts.
Context `{MapRange}.
Variable GetFilterableIssueType : Issue.t → FilterableIssueType.
Variable config : Config.t.
Variable scanner : string → string → list ScanData.t.

Lemma ClearDiagnosticsByIssueType_exec removedType (f : Folder.t) :
  exec (ClearDiagnosticsByIssueType GetFilterableIssueType removedType) f
  = Folder.withCache f
      (filter (λ issue, GetFilterableIssueType issue ≠ removedType)
         <$> Folder.documentDiagnosticCache f).
Proof.
  unfold exec, ClearDiagnosticsByIssueType.
  erewrite (run_bind_eq _ _ _ _ _ _ _ []); [|reflexivity|apply clearLoop_run].
  simpl. f_equal. apply clear_cache.
Qed.

Lemma IsTrusted_path (f g : Folder.t) :
  Folder.path g = Folder.path f → IsTrusted config g = IsTrusted config f.
Proof. intros Hpath. unfold IsTrusted. by rewrite Hpath. Qed.

Lemma replay_no_scanner issues (f : Folder.t) :
  Forall (λ e, isScannerScan e = false)
    (trace (processResults GetFilterableIssueType config (cachedScanData issues)) f).
Proof.
  destruct (replay_trace GetFilterableIssueType config issues f) as [byFile ->].
  rewrite !Forall_app, !Forall_fmap. repeat split.
  - by apply Forall_true.
  - by repeat constructor.
  - by apply Forall_true.
Qed.
End ClearingFacts.

(** X11. [ClearDiagnosticsFromFile] invalidates one file: its entry is gone,
    the other entries stay, the status is Unscanned, and the only calls are
    the clearing of the inline values (for a scanner that provides them) and
    the empty diagnostics of the file, also when the file had no entry.  The
    next [ScanFile] of the file in a trusted folder invokes the scanner. *)
Theorem ClearDiagnosticsFromFile_forces_rescan `{MapRange}
    (GetFilterableIssueType : Issue.t → FilterableIssueType) (config : Config.t)
    (scanner : string → string → list ScanData.t) (inlineValueProvider : bool)
    (f : Folder.t) (filePath : string) :
  let f' := (ClearDiagnosticsFromFile inlineValueProvider filePath f).1 in
  result (AllIssuesFor filePath) f' = None
  ∧ (∀ other, other ≠ filePath →
       result (AllIssuesFor other) f' = result (AllIssuesFor other) f)
  ∧ result IsScanned f' = false
  ∧ (ClearDiagnosticsFromFile inlineValueProvider filePath f).2
    = (if inlineValueProvider then [ScannerClearInlineValues filePath] else [])
      ++ [NotifierSendEmptyDiagnostics filePath]
  ∧ (IsTrusted config f = true →
     ∃ rest,
       trace (ScanFile GetFilterableIssueType config scanner filePath) f'
       = ScannerScan filePath (Folder.path f) :: rest).
Proof.
  intros f'. subst f'. unfold ClearDiagnosticsFromFile. cbn [fst snd].
  split; [apply lookup_delete_eq|].
  split; [intros other Hne; by apply lookup_delete_ne|].
  split; [done|]. split; [done|].
  intros Htrust. unfold ScanFile, trace.
  rewrite scan_uncached; [by eexists | done | apply lookup_delete_eq].
Qed.

Lemma ClearDiagnosticsFromFile_forces_rescan_witness :
  ∃ rest,
    trace (@ScanFile canonicalRange Sample.filterableType Sample.config Sample.scanner
             "/home/user/proj/go.mod")
      (ClearDiagnosticsFromFile true "/home/user/proj/go.mod" Sample.scanned).1
    = ScannerScan "/home/user/proj/go.mod" "/home/user/proj" :: rest.
Proof.
  apply (@ClearDiagnosticsFromFile_forces_rescan canonicalRange Sample.filterableType
           Sample.config Sample.scanner true Sample.scanned "/home/user/proj/go.mod").
  reflexivity.
Defined.

(** X12. [ClearDiagnosticsByIssueType] keeps the entry of every file, empty
    when all its issues had the removed type, and no cached issue has the
    removed type afterwards.  The entry still counts as cached: the next
    [ScanFile] of such a file in a trusted folder does not invoke the
    scanner. *)
Theorem ClearDiagnosticsByIssueType_keeps_files_cached `{MapRange}
    (GetFilterableIssueType : Issue.t → FilterableIssueType) (config : Config.t)
    (scanner : string → string → list ScanData.t)
    (removedType : FilterableIssueType) (f : Folder.t) (path : string) :
  let f' := exec (ClearDiagnosticsByIssueType GetFilterableIssueType removedType) f in
  (∀ key issues issue,
     Folder.documentDiagnosticCache f' !! key = Some issues → issue ∈ issues →
     GetFilterableIssueType issue ≠ removedType)
  ∧ (is_Some (Folder.documentDiagnosticCache f !! path) →
     is_Some (result (AllIssuesFor path) f')
     ∧ (IsTrusted config f = true →
        Forall (λ e, isScannerScan e = false)
          (trace (ScanFile GetFilterableIssueType config scanner path) f'))).
Proof.
  intros f'. subst f'. rewrite ClearDiagnosticsByIssueType_exec. split.
  - intros key issues issue Hentry Hin. cbn in Hentry. rewrite lookup_fmap in Hentry.
    destruct (Folder.documentDiagnosticCache f !! key) as [old|]; [|done].
    injection Hentry as <-. by apply list_elem_of_filter in Hin as [? _].
  - intros [old Hold].
    assert (Hentry : Folder.documentDiagnosticCache
                       (Folder.withCache f
                          (filter (λ issue, GetFilterableIssueType issue ≠ removedType)
                             <$> Folder.documentDiagnosticCache f)) !! path
                     = Some (filter (λ issue, GetFilterableIssueType issue ≠ removedType) old)).
    { cbn. by rewrite lookup_fmap, Hold. }
    split; [by eexists|].
    intros Htrust. unfold ScanFile, trace.
    erewrite scan_cached; [apply replay_no_scanner | done | exact Hentry].
Qed.

Lemma ClearDiagnosticsByIssueType_keeps_files_cached_witness :
  let f' :=
    exec (@ClearDiagnosticsByIssueType canonicalRange Sample.filterableType "oss")
      Sample.scanned in
  result (AllIssuesFor "/home/user/proj/go.mod") f' = Some []
  ∧ Forall (λ e, isScannerScan e = false)
      (trace (@ScanFile canonicalRange Sample.filterableType Sample.config Sample.scanner
                "/home/user/proj/go.mod") f').
Proof.
  split; [reflexivity|].
  destruct (@ClearDiagnosticsByIssueType_keeps_files_cached canonicalRange
              Sample.filterableType Sample.config Sample.scanner "oss" Sample.scanned
              "/home/user/proj/go.mod") as [_ Hcached].
  destruct Hcached as [_ Hquiet]; [by eexists|]. by apply Hquiet.
Defined.

(** ** Invariants under clearing *)

Lemma shrinks_cacheIssues (cache cache' : gmap string (list Issue.t)) :
  shrinks cache cache' → cacheIssues cache' ⊆+ cacheIssues cache.
Proof.
  revert cache. induction cache' as [|key issues' m Hfresh IH] using map_ind;
    intros cache Hshrinks.
  - unfold cacheIssues at 1. rewrite map_to_list_empty. apply submseteq_nil_l.
  - destruct (Hshrinks key issues') as (issues & Hentry & Hsub);
      [apply lookup_insert_eq|].
    rewrite cacheIssues_insert, (cacheIssues_lookup cache key), Hentry.
    rewrite (delete_id m) by done.
    apply submseteq_app; [by apply sublist_submseteq|].
    apply IH. intros k l' Hl'.
    assert (k ≠ key) by congruence.
    destruct (Hshrinks k l') as (l & Hl & Hsubl); [by rewrite lookup_insert_ne|].
    exists l. by rewrite lookup_delete_ne.
Qed.

Lemma shrinks_deduplicated (cache cache' : gmap string (list Issue.t)) :
  shrinks cache cache' → deduplicated cache → deduplicated cache'.
Proof.
  intros Hshrinks Hded. unfold deduplicated, cachedIDs in *.
  pose proof (fmap_submseteq getUniqueIssueID _ _ (shrinks_cacheIssues _ _ Hshrinks)) as Hsub.
  apply submseteq_Permutation in Hsub as [rest Hperm].
  rewrite Hperm in Hded. by apply NoDup_app in Hded as [? _].
Qed.

Lemma shrinks_keyed (cache cache' : gmap string (list Issue.t)) :
  shrinks cache cache' → keyed cache → keyed cache'.
Proof.
  intros Hshrinks Hkeyed key issues' issue Hentry Hin.
  destruct (Hshrinks key issues' Hentry) as (issues & Hold & Hsub).
  apply (Hkeyed key issues); [done|]. by eapply elem_of_sublist.
Qed.

Lemma ClearDiagnosticsFromPathRecursively_lookup (order : RangeOrder) inlineValueProvider
    removedPath (f : Folder.t) key :
  Folder.documentDiagnosticCache
    (ClearDiagnosticsFromPathRecursively order inlineValueProvider removedPath f).1 !! key
  = if contains key removedPath then None else Folder.documentDiagnosticCache f !! key.
Proof.
  unfold ClearDiagnosticsFromPathRecursively.
  rewrite ClearDiagnosticsFromPathRecursively_fold. cbn [fst Folder.documentDiagnosticCache].
  rewrite (deletes_lookup (λ k, negb (contains k removedPath))), negb_involutive.
  destruct (contains key removedPath); [|by rewrite andb_false_r].
  rewrite andb_true_r. case_bool_decide as Hin; [done|].
  destruct (Folder.documentDiagnosticCache f !! key) eqn:Hkey; [|done].
  exfalso. apply Hin, visit_keys. by rewrite Hkey.
Qed.

Lemma ClearDiagnostics_cache (order : RangeOrder) (f : Folder.t) :
  Folder.documentDiagnosticCache (ClearDiagnostics order f).1 = ∅.
Proof.
  unfold ClearDiagnostics. rewrite ClearDiagnostics_fold.
  cbn [fst Folder.withCache Folder.documentDiagnosticCache].
  apply map_eq. intros key.
  rewrite (deletes_lookup (λ _, false)), lookup_empty. cbn [negb]. rewrite andb_true_r.
  case_bool_decide as Hin; [done|].
  destruct (Folder.documentDiagnosticCache f !! key) eqn:Hkey; [|done].
  exfalso. apply Hin, visit_keys. by rewrite Hkey.
Qed.

(** X13. The four clearing operations only strike issues out of the cache,
    so they keep its two invariants: every cached issue lies under its own
    file, and no two cached issues share a unique identity. *)
Theorem clearing_keeps_cache_invariants `{MapRange} (order : RangeOrder)
    (GetFilterableIssueType : Issue.t → FilterableIssueType)
    (removedType : FilterableIssueType) (inlineValueProvider : bool)
    (path : string) (f : Folder.t) :
  keyed (Folder.documentDiagnosticCache f) →
  deduplicated (Folder.documentDiagnosticCache f) →
  let invariant (f' : Folder.t) :=
    keyed (Folder.documentDiagnosticCache f')
    ∧ deduplicated (Folder.documentDiagnosticCache f') in
  invariant (exec (ClearDiagnosticsByIssueType GetFilterableIssueType removedType) f)
  ∧ invariant (ClearDiagnosticsFromFile inlineValueProvider path f).1
  ∧ invariant (ClearDiagnosticsFromPathRecursively order inlineValueProvider path f).1
  ∧ invariant (ClearDiagnostics order f).1.
Proof.
  intros Hkeyed Hded invariant.
  assert (Hinv : ∀ f' : Folder.t,
            shrinks (Folder.documentDiagnosticCache f) (Folder.documentDiagnosticCache f') →
            invariant f').
  { intros f' Hshrinks. split; [by eapply shrinks_keyed | by eapply shrinks_deduplicated]. }
  split; [|split; [|split]]; apply Hinv; clear Hinv; intros key issues' Hentry.
  - rewrite ClearDiagnosticsByIssueType_exec in Hentry. cbn in Hentry.
    rewrite lookup_fmap in Hentry.
    destruct (Folder.documentDiagnosticCache f !! key) as [issues|]; [|done].
    injection Hentry as <-. exists issues. split; [done | apply sublist_filter].
  - change (delete path (Folder.documentDiagnosticCache f) !! key = Some issues') in Hentry.
    apply lookup_delete_Some in Hentry as [_ Hentry]. by exists issues'.
  - rewrite ClearDiagnosticsFromPathRecursively_lookup in Hentry.
    destruct (contains key path); [done|]. by exists issues'.
  - by rewrite ClearDiagnostics_cache in Hentry.
Qed.

Lemma clearing_keeps_cache_invariants_witness :
  deduplicated
    (Folder.documentDiagnosticCache
       (ClearDiagnosticsFromFile true "/home/user/proj/go.mod" Sample.scanned).1).
Proof.
  destruct (@clearing_keeps_cache_invariants canonicalRange canonicalOrder
              Sample.filterableType "oss" true "/home/user/proj/go.mod" Sample.scanned)
    as (_ & [_ Hded] & _); [| by_computation | exact Hded].
  apply (@processResults_keyed canonicalRange Sample.filterableType Sample.config
           (Sample.batch [Sample.critical; Sample.high]) Sample.trusted).
  intros key issues issue Hentry. vm_compute in Hentry. discriminate.
Defined.

(** ** Trust, paths and identities *)

(** X14. With the trust feature enabled, an empty list of trusted folders
    trusts no folder and the empty string as trusted folder trusts every
    folder.  Trust only looks at the path as a string: it passes from a
    trusted folder to every folder whose path continues its path, and it is
    kept when trusted folders are added. *)
Theorem IsTrusted_edges_and_inheritance (config config' : Config.t) (f g : Folder.t) :
  (Config.IsTrustedFolderFeatureEnabled config = true →
   Config.TrustedFolders config = [] → IsTrusted config f = false)
  ∧ ("" ∈ Config.TrustedFolders config → IsTrusted config f = true)
  ∧ (IsTrusted config f = true →
     (∃ rest, Folder.path g = Folder.path f +:+ rest) → IsTrusted config g = true)
  ∧ (IsTrusted config f = true →
     Config.IsTrustedFolderFeatureEnabled config' = Config.IsTrustedFolderFeatureEnabled config →
     (∀ path, path ∈ Config.TrustedFolders config → path ∈ Config.TrustedFolders config') →
     IsTrusted config' f = true).
Proof.
  unfold IsTrusted. split; [|split; [|split]].
  - by intros -> ->.
  - intros Hin. destruct (Config.IsTrustedFolderFeatureEnabled config); [|done].
    apply hasTrustedPrefix_spec. exists "". split; [done|].
    apply prefix_append. by exists (Folder.path f).
  - destruct (Config.IsTrustedFolderFeatureEnabled config); [|done]. cbn [negb].
    rewrite !hasTrustedPrefix_spec. intros (path & Hin & Hpre) [rest Hrest].
    exists path. split; [done|]. apply prefix_append in Hpre as [more Hmore].
    apply prefix_append. exists (more +:+ rest).
    rewrite Hrest, Hmore. clear. induction path as [|c path IH]; [done|].
    by rewrite !append_String, IH.
  - intros Htrust -> Hsub.
    destruct (Config.IsTrustedFolderFeatureEnabled config); [|done]. cbn [negb] in *.
    apply hasTrustedPrefix_spec in Htrust as (path & Hin & Hpre).
    apply hasTrustedPrefix_spec. exists path. split; [by apply Hsub | done].
Qed.

Lemma IsTrusted_edges_and_inheritance_witness :
  IsTrusted Sample.config (NewFolder "/home/user/proj/sub/deeper" "deeper") = true
  ∧ IsTrusted (Config.mk true [] (SeverityFilter.mk true true true true) ∅) Sample.trusted
    = false.
Proof.
  destruct (IsTrusted_edges_and_inheritance Sample.config Sample.config Sample.trusted
              (NewFolder "/home/user/proj/sub/deeper" "deeper")) as (_ & _ & Hsub & _).
  destruct (IsTrusted_edges_and_inheritance
              (Config.mk true [] (SeverityFilter.mk true true true true) ∅)
              Sample.config Sample.trusted Sample.trusted) as (Hnone & _).
  split; [apply Hsub; [reflexivity | by exists "/sub/deeper"] | by apply Hnone].
Defined.

Lemma length_append_slash (p : string) : String.length (p +:+ "/") = S (String.length p).
Proof. induction p as [|c p IH]; [done|]. rewrite append_String. simpl. by rewrite IH. Qed.

Lemma substring_last_slash (p : string) : substring (String.length p) 1 (p +:+ "/") = "/".
Proof. induction p as [|c p IH]; [done|]. by rewrite append_String. Qed.

Lemma substring_init_slash (p : string) : substring 0 (String.length p) (p +:+ "/") = p.
Proof. induction p as [|c p IH]; [done|]. rewrite append_String. simpl. by rewrite IH. Qed.

Lemma last_slash_inv (p : string) :
  substring (String.length p - 1) 1 p = "/" → ∃ q, p = q +:+ "/".
Proof.
  induction p as [|c [|d s] IH].
  - done.
  - simpl. intros [= ->]. by exists "".
  - intros Hlast. destruct IH as [q Hq].
    { simpl in *. by rewrite Nat.sub_0_r in *. }
    exists (String c q). by rewrite append_String, <- Hq.
Qed.

(** X15. [NewFolder] strips one trailing slash of the path and no more: the
    path [p/] becomes [p], whatever [p] ends with, and a path that does not
    end with a slash is taken as it is.  The new folder is Unscanned and has
    no cached issues for any file. *)
Theorem NewFolder_strips_one_trailing_slash (path name filePath : string) :
  Folder.path (NewFolder (path +:+ "/") name) = path
  ∧ ((∀ q, path ≠ q +:+ "/") → Folder.path (NewFolder path name) = path)
  ∧ result IsScanned (NewFolder path name) = false
  ∧ result (AllIssuesFor filePath) (NewFolder path name) = None.
Proof.
  split; [|split; [|done]].
  - cbn. unfold trimSuffixSlash. rewrite length_append_slash. cbn [Nat.sub].
    rewrite Nat.sub_0_r, substring_last_slash. cbn. apply substring_init_slash.
  - intros Hnoslash. cbn. unfold trimSuffixSlash.
    destruct (String.eqb _ "/") eqn:Hlast; [|done].
    apply String.eqb_eq, last_slash_inv in Hlast as [q Hq]. by destruct (Hnoslash q).
Qed.

Lemma NewFolder_strips_one_trailing_slash_witness :
  Folder.path (NewFolder "/home/user/proj//" "proj") = "/home/user/proj/"
  ∧ Folder.path (NewFolder "/home/user/proj" "proj") = "/home/user/proj".
Proof.
  destruct (NewFolder_strips_one_trailing_slash "/home/user/proj/" "proj" "") as [Hone _].
  destruct (NewFolder_strips_one_trailing_slash "/home/user/proj" "proj" "")
    as (_ & Hnone & _).
  split; [exact Hone|]. apply Hnone. intros q Hq.
  apply (f_equal (λ s, substring (String.length s - 1) 1 s)) in Hq.
  rewrite length_append_slash in Hq. cbn [Nat.sub] in Hq.
  rewrite Nat.sub_0_r, substring_last_slash in Hq. vm_compute in Hq. discriminate.
Defined.

Lemma append_bar_inj (id1 id2 path1 path2 : string) :
  (∀ pre post, id1 ≠ pre +:+ "|" +:+ post) →
  (∀ pre post, id2 ≠ pre +:+ "|" +:+ post) →
  id1 +:+ "|" +:+ path1 = id2 +:+ "|" +:+ path2 →
  id1 = id2 ∧ path1 = path2.
Proof.
  revert id2. induction id1 as [|c id1 IH]; intros [|d id2] Hno1 Hno2 Heq.
  - split; [done|]. by injection Heq.
  - rewrite append_String in Heq. injection Heq as <- _.
    by destruct (Hno2 "" id2).
  - rewrite append_String in Heq. injection Heq as -> _.
    by destruct (Hno1 "" id1).
  - rewrite !append_String in Heq. injection Heq as -> Heq.
    destruct (IH id2) as [-> ->]; [| |done|done].
    + intros pre post ->. by apply (Hno1 (String d pre) post).
    + intros pre post ->. by apply (Hno2 (String d pre) post).
Qed.

(** X16. The unique identity tells issues apart by [ID] and
    [AffectedFilePath] as long as no [ID] contains the separator: two issues
    whose [ID]s are free of the bar have the same identity only if they have
    the same [ID] and the same file.  With a bar in an [ID], different
    findings in different files can share an identity. *)
Theorem getUniqueIssueID_injective_without_bar (a b : Issue.t) :
  ((∀ pre post, Issue.ID a ≠ pre +:+ "|" +:+ post) →
   (∀ pre post, Issue.ID b ≠ pre +:+ "|" +:+ post) →
   getUniqueIssueID a = getUniqueIssueID b →
   Issue.ID a = Issue.ID b ∧ Issue.AffectedFilePath a = Issue.AffectedFilePath b)
  ∧ getUniqueIssueID (Issue.mk "V|1" (Issue.Message a) (Issue.Severity a) "a.go"
                        (Issue.Product a) (Issue.IssueType a))
    = getUniqueIssueID (Issue.mk "V" (Issue.Message b) (Issue.Severity b) "1|a.go"
                          (Issue.Product b) (Issue.IssueType b)).
Proof. split; [apply append_bar_inj | done]. Qed.

Lemma getUniqueIssueID_injective_without_bar_witness :
  Issue.ID Sample.critical = Issue.ID Sample.criticalAgain
  ∧ Issue.AffectedFilePath Sample.critical = Issue.AffectedFilePath Sample.criticalAgain.
Proof.
  apply (getUniqueIssueID_injective_without_bar Sample.critical Sample.criticalAgain);
    [| |reflexivity].
  - intros pre post Heq. apply (f_equal (λ s, contains s "|")) in Heq.
    assert (contains (pre +:+ "|" +:+ post) "|" = true) as Htrue
      by (apply contains_spec; by exists pre, post).
    rewrite Htrue in Heq. vm_compute in Heq. discriminate.
  - intros pre post Heq. apply (f_equal (λ s, contains s "|")) in Heq.
    assert (contains (pre +:+ "|" +:+ post) "|" = true) as Htrue
      by (apply contains_spec; by exists pre, post).
    rewrite Htrue in Heq. vm_compute in Heq. discriminate.
Defined.

(** X17. The filter works issue by issue: filtering a list with issues added
    at its end gives the filtered list followed by the filtered additions, and
    filtering a filtered list changes nothing. *)
Theorem FilterIssues_append_and_again
    (GetFilterableIssueType : Issue.t → FilterableIssueType) (config : Config.t)
    (supportedIssueTypes : gmap string bool) (old added : list Issue.t) :
  let visible issues :=
    FilterIssues GetFilterableIssueType config issues supportedIssueTypes in
  visible (old ++ added) = visible old ++ visible added
  ∧ visible (visible old) = visible old
  ∧ (length (visible old) ≤ length old)%nat.
Proof.
  intros visible. subst visible. cbn beta. rewrite !FilterIssues_filter.
  split; [apply List.filter_app|]. split.
  - induction old as [|i old IH]; [done|]. simpl.
    destruct (keeps _ _ _ i) eqn:Hkeep; [|done]. simpl. by rewrite Hkeep, IH.
  - apply List.filter_length_le.
Qed.

(** * Properties of the open source issues *)

Lemma issuesSeverity_lookup (severity : string) :
  oss.issuesSeverity !! severity
  = if decide (severity = "critical") then Some Critical
    else if decide (severity = "high") then Some High
    else if decide (severity = "low") then Some Low
    else if decide (severity = "medium") then Some Medium
    else None.
Proof.
  unfold oss.issuesSeverity.
  rewrite !lookup_insert, lookup_singleton.
  repeat case_decide; congruence.
Qed.

(** X18. [ToIssueSeverity] knows the four lower-case names and nothing else:
    it returns Critical, High or Medium exactly for the severity strings
    critical, high and medium, and Low for every other string, be it low, a
    name in upper case or the empty string. *)
Theorem ToIssueSeverity_known_names_else_Low (i : oss.ossIssue) :
  (oss.ToIssueSeverity i = Critical ↔ oss.Severity i = "critical")
  ∧ (oss.ToIssueSeverity i = High ↔ oss.Severity i = "high")
  ∧ (oss.ToIssueSeverity i = Medium ↔ oss.Severity i = "medium")
  ∧ (oss.ToIssueSeverity i = Low
     ↔ oss.Severity i ≠ "critical" ∧ oss.Severity i ≠ "high" ∧ oss.Severity i ≠ "medium").
Proof.
  unfold oss.ToIssueSeverity. rewrite issuesSeverity_lookup.
  repeat case_decide; repeat split; intros; try congruence; try done;
    try (by intuition congruence).
Qed.

Lemma string_app_assoc (a b c : string) : (a +:+ b) +:+ c = a +:+ (b +:+ c).
Proof. induction a as [|x a IH]; [done|]. by rewrite !append_String, IH. Qed.

Lemma createFixedIn_fold (rest : list string) (p x : string) :
  fold_left (λ f version, f +:+ (", " +:+ version)) rest (p +:+ x)
  = p +:+ String.concat ", " (x :: rest).
Proof.
  revert p x. induction rest as [|v rest IH]; intros p x; [done|].
  cbn [fold_left].
  replace ((p +:+ x) +:+ (", " +:+ v)) with ((p +:+ (x +:+ ", ")) +:+ v)
    by by rewrite !string_app_assoc.
  rewrite IH. change (String.concat ", " (x :: v :: rest))
    with (x +:+ (", " +:+ String.concat ", " (v :: rest))).
  by rewrite !string_app_assoc.
Qed.

(** X19. [createFixedIn] is Not Fixed for an issue without fixed versions;
    otherwise it is the at sign followed by the fixed versions, separated by
    a comma and a space. *)
Theorem createFixedIn_joins_versions (i : oss.ossIssue) :
  (oss.FixedIn i = [] → oss.createFixedIn i = "Not Fixed")
  ∧ (oss.FixedIn i ≠ [] →
     oss.createFixedIn i = "@" +:+ String.concat ", " (oss.FixedIn i)).
Proof.
  unfold oss.createFixedIn. destruct (oss.FixedIn i) as [|first rest]; split; try done.
  intros _. change ("" +:+ ("@" +:+ first)) with ("@" +:+ first).
  apply createFixedIn_fold.
Qed.

Lemma createFixedIn_joins_versions_witness :
  oss.createFixedIn (oss.mkOssIssue "V1" "lodash" "4.17.0" "high" ["4.17.21"; "5.0.0"; "6.0.0"])
  = "@4.17.21, 5.0.0, 6.0.0"
  ∧ oss.createFixedIn (oss.mkOssIssue "V1" "lodash" "4.17.0" "high" []) = "Not Fixed".
Proof.
  destruct (createFixedIn_joins_versions
              (oss.mkOssIssue "V1" "lodash" "4.17.0" "high" ["4.17.21"; "5.0.0"; "6.0.0"]))
    as [_ Hsome].
  destruct (createFixedIn_joins_versions (oss.mkOssIssue "V1" "lodash" "4.17.0" "high" []))
    as [Hnone _].
  split; [by rewrite Hsome | by apply Hnone].
Defined.

(** ** The duplicate check of [convertScanResultToIssues] *)

Section ConvertFacts.
Variable ProductOpenSource : Product.
Variable DependencyVulnerability : Z.
Variable rendered : string → oss.ossIssue → option string.
Variable path : string.

Lemma firstOfKey_sublist seen vulnerabilities :
  oss.firstOfKey seen vulnerabilities `sublist_of` vulnerabilities.
Proof.
  revert seen. induction vulnerabilities as [|v rest IH]; intros seen; [done|].
  cbn [oss.firstOfKey]. case_bool_decide; by constructor.
Qed.

Lemma firstOfKey_keys seen vulnerabilities :
  NoDup (oss.duplicateKey <$> oss.firstOfKey seen vulnerabilities)
  ∧ (∀ v, v ∈ oss.firstOfKey seen vulnerabilities → oss.duplicateKey v ∉ seen)
  ∧ (∀ v, v ∈ vulnerabilities →
       oss.duplicateKey v ∈ seen
       ∨ oss.duplicateKey v ∈ oss.duplicateKey <$> oss.firstOfKey seen vulnerabilities).
Proof.
  revert seen. induction vulnerabilities as [|v rest IH]; intros seen.
  - repeat split; [constructor | by intros ? ?%elem_of_nil | by intros ? ?%elem_of_nil].
  - cbn [oss.firstOfKey]. case_bool_decide as Hseen.
    + destruct (IH seen) as (Hnodup & Hfresh & Hall). repeat split; [done..|].
      intros w [->|Hw]%elem_of_cons; [by left | by apply Hall].
    + destruct (IH (oss.duplicateKey v :: seen)) as (Hnodup & Hfresh & Hall).
      repeat split.
      * rewrite fmap_cons. apply NoDup_cons. split; [|done].
        intros (w & Hkey & Hw)%list_elem_of_fmap.
        apply (Hfresh w Hw). rewrite <- Hkey. by left.
      * intros w [->|Hw]%elem_of_cons; [done|].
        intros Hin. apply (Hfresh w Hw). by right.
      * intros w [->|Hw]%elem_of_cons; [right; rewrite fmap_cons; by left|].
        destruct (Hall w Hw) as [[->|Hin]%elem_of_cons|Hin].
        -- right. rewrite fmap_cons. by left.
        -- by left.
        -- right. rewrite fmap_cons. by right.
Qed.

Lemma convertLoop_returns (message : oss.ossIssue → string) seen vulnerabilities issues
    (duplicateCheckMap : gmap string bool) packageIssueCache :
  (∀ key, lookupBool duplicateCheckMap key = true ↔ key ∈ seen) →
  (∀ v, v ∈ oss.firstOfKey seen vulnerabilities → rendered path v = Some (message v)) →
  (oss.convertLoop ProductOpenSource DependencyVulnerability rendered path vulnerabilities
     issues duplicateCheckMap packageIssueCache).1
  = Returned
      (issues
       ++ ((λ v, Issue.mk (oss.Id v) (message v) (oss.ToIssueSeverity v) path
                   ProductOpenSource DependencyVulnerability)
             <$> oss.firstOfKey seen vulnerabilities)).
Proof.
  revert seen issues duplicateCheckMap packageIssueCache.
  induction vulnerabilities as [|v rest IH];
    intros seen issues duplicateCheckMap packageIssueCache Hseen Hrendered.
  - cbn. by rewrite app_nil_r.
  - cbn [oss.convertLoop oss.firstOfKey] in *. fold (oss.duplicateKey v) in *.
    destruct (lookupBool duplicateCheckMap (oss.duplicateKey v)) eqn:Hdup.
    + rewrite bool_decide_eq_true_2 in * by by apply Hseen. by apply IH.
    + rewrite bool_decide_eq_false_2 in *
        by (intros Hin; apply Hseen in Hin; congruence).
      unfold oss.toIssue. rewrite (Hrendered v) by left.
      rewrite (IH (oss.duplicateKey v :: seen)).
      * by rewrite fmap_cons, <- app_assoc.
      * intros key. unfold lookupBool. rewrite elem_of_cons, <- Hseen.
        destruct (decide (oss.duplicateKey v = key)) as [->|Hne].
        -- rewrite lookup_insert_eq. simpl. tauto.
        -- rewrite lookup_insert_ne by done. unfold lookupBool. intuition congruence.
      * intros w Hw. apply Hrendered. by right.
Qed.

Lemma convertLoop_panics seen vulnerabilities issues
    (duplicateCheckMap : gmap string bool) packageIssueCache :
  (∀ key, lookupBool duplicateCheckMap key = true ↔ key ∈ seen) →
  (∃ v, v ∈ oss.firstOfKey seen vulnerabilities ∧ rendered path v = None) →
  (oss.convertLoop ProductOpenSource DependencyVulnerability rendered path vulnerabilities
     issues duplicateCheckMap packageIssueCache).1
  = Panicked.
Proof.
  revert seen issues duplicateCheckMap packageIssueCache.
  induction vulnerabilities as [|v rest IH];
    intros seen issues duplicateCheckMap packageIssueCache Hseen (w & Hw & Hnone).
  - by apply elem_of_nil in Hw.
  - cbn [oss.convertLoop oss.firstOfKey] in *. fold (oss.duplicateKey v) in *.
    destruct (lookupBool duplicateCheckMap (oss.duplicateKey v)) eqn:Hdup.
    + rewrite bool_decide_eq_true_2 in Hw by by apply Hseen.
      apply (IH seen); [done | by exists w].
    + rewrite bool_decide_eq_false_2 in Hw
        by (intros Hin; apply Hseen in Hin; congruence).
      unfold oss.toIssue. destruct (rendered path v) as [message|] eqn:Hv; [|done].
      apply elem_of_cons in Hw as [->|Hw]; [congruence|].
      apply (IH (oss.duplicateKey v :: seen)); [|by exists w].
      intros key. unfold lookupBool. rewrite elem_of_cons, <- Hseen.
      destruct (decide (oss.duplicateKey v = key)) as [->|Hne].
      * rewrite lookup_insert_eq. simpl. tauto.
      * rewrite lookup_insert_ne by done. unfold lookupBool. intuition congruence.
Qed.
End ConvertFacts.

(** X20. [convertScanResultToIssues] turns into an issue the first
    vulnerability of every key Id|PackageName, in the order of the scan
    result, and skips the later ones with the same key without rendering
    them; every issue is for the scanned file, with the [Id] of its
    vulnerability as [ID].  It panics exactly when the rendering of one of
    these first vulnerabilities panics.  Two vulnerabilities with the same
    [Id] in different packages both become issues, with equal [ID] and
    file. *)
Theorem convertScanResultToIssues_first_of_each_key
    (ProductOpenSource : Product) (DependencyVulnerability : Z)
    (rendered : string → oss.ossIssue → option string)
    (message : oss.ossIssue → string)
    (vulnerabilities : list oss.ossIssue) (path : string)
    (packageIssueCache : gmap string (list Issue.t)) :
  let converted :=
    (oss.convertScanResultToIssues ProductOpenSource DependencyVulnerability rendered
       vulnerabilities path packageIssueCache).1 in
  let chosen := oss.firstOfKey [] vulnerabilities in
  chosen `sublist_of` vulnerabilities
  ∧ NoDup ((λ v, oss.Id v +:+ "|" +:+ oss.PackageName v) <$> chosen)
  ∧ (∀ v, v ∈ vulnerabilities →
       ∃ w, w ∈ chosen
            ∧ oss.Id w +:+ "|" +:+ oss.PackageName w
              = oss.Id v +:+ "|" +:+ oss.PackageName v)
  ∧ ((∀ v, v ∈ chosen → rendered path v = Some (message v)) →
     converted
     = Returned
         ((λ v, Issue.mk (oss.Id v) (message v) (oss.ToIssueSeverity v) path
                  ProductOpenSource DependencyVulnerability) <$> chosen))
  ∧ ((∃ v, v ∈ chosen ∧ rendered path v = None) → converted = Panicked).
Proof.
  intros converted chosen. subst converted chosen.
  destruct (firstOfKey_keys [] vulnerabilities) as (Hnodup & _ & Hall).
  assert (Hempty : ∀ key, lookupBool (∅ : gmap string bool) key = true ↔ key ∈ @nil string).
  { intros key. unfold lookupBool. rewrite lookup_empty, elem_of_nil. simpl. split; [done|tauto]. }
  split; [apply firstOfKey_sublist|]. split; [done|]. split; [|split].
  - intros v Hv. destruct (Hall v Hv) as [Hin|Hin]; [by apply elem_of_nil in Hin|].
    apply list_elem_of_fmap in Hin as (w & Hkey & Hw). by exists w.
  - intros Hrendered. unfold oss.convertScanResultToIssues.
    by rewrite (convertLoop_returns _ _ _ _ message []).
  - intros Hpanic. unfold oss.convertScanResultToIssues.
    by apply (convertLoop_panics _ _ _ _ []).
Qed.

Lemma convertScanResultToIssues_first_of_each_key_witness :
  let lodash := oss.mkOssIssue "V1" "lodash" "4.17.0" "high" ["4.17.21"] in
  let again := oss.mkOssIssue "V1" "lodash" "4.17.0" "low" [] in
  let underscore := oss.mkOssIssue "V1" "underscore" "1.0.0" "critical" [] in
  (oss.convertScanResultToIssues "oss" 4
     (λ _ v, if bool_decide (v = again) then None else Some (oss.PackageName v))
     [lodash; again; underscore] "/home/user/proj/package.json" ∅).1
  = Returned
      [Issue.mk "V1" "lodash" High "/home/user/proj/package.json" "oss" 4;
       Issue.mk "V1" "underscore" Critical "/home/user/proj/package.json" "oss" 4].
Proof.
  intros lodash again underscore.
  destruct (convertScanResultToIssues_first_of_each_key "oss" 4
              (λ _ v, if bool_decide (v = again) then None else Some (oss.PackageName v))
              oss.PackageName
              [lodash; again; underscore] "/home/user/proj/package.json" ∅)
    as (_ & _ & _ & Hreturned & _).
  rewrite Hreturned; [reflexivity|].
  intros v Hv. vm_compute in Hv.
  repeat (apply elem_of_cons in Hv as [->|Hv]; [reflexivity|]).
  by apply elem_of_nil in Hv.
Defined.

(** * Properties of the test doubles *)

Section MockFacts.
Variable Msg : Type.
Variable MTError : Z.

Local Abbreviation calls := (MockNotifier.calls Msg MTError).
Local Abbreviation sentBy := (MockNotifier.sentBy Msg MTError).

Lemma MockNotifier_calls_run (cs : list (MockNotifier.call Msg)) (m : MockNotifier.t Msg) :
  Forall (λ c, is_Some (sentBy c)) cs →
  ∃ m',
    calls cs m = (Returned m', m')
    ∧ MockNotifier.sentMessages Msg m' = MockNotifier.sentMessages Msg m ++ omap sentBy cs
    ∧ MockNotifier.sendShowMessageCounter Msg m'
      = Nat.iter (length (List.filter (MockNotifier.isSendShowMessage Msg) cs)) int_incr
          (MockNotifier.sendShowMessageCounter Msg m)
    ∧ MockNotifier.sendCounter Msg m'
      = Nat.iter (length (List.filter (MockNotifier.isSend Msg) cs)) int_incr
          (MockNotifier.sendCounter Msg m)
    ∧ MockNotifier.sendErrorCounter Msg m'
      = Nat.iter (length (List.filter (MockNotifier.isSendError Msg) cs)) int_incr
          (MockNotifier.sendErrorCounter Msg m)
    ∧ MockNotifier.sendErrorDiagnosticCounter Msg m'
      = Nat.iter (length (List.filter (MockNotifier.isSendErrorDiagnostic Msg) cs)) int_incr
          (MockNotifier.sendErrorDiagnosticCounter Msg m).
Proof.
  intros Hok. revert m. induction Hok as [|c cs [s Hs] _ IH]; intros m.
  - exists m. cbn. by rewrite app_nil_r.
  - destruct c as [messageType message|msg|err|path [e|]];
      [| | | |by cbn in Hs];
      cbn [MockNotifier.calls MockNotifier.SendErrorDiagnostic];
      (edestruct IH as (m' & Hrun & Hsent & H1 & H2 & H3 & H4));
      exists m'; rewrite Hrun, Hsent, H1, H2, H3, H4;
      cbn -[Nat.iter]; rewrite <- ?app_assoc, ?Nat.iter_succ_r; done.
Qed.
End MockFacts.

(** X21. The mock notifier records every call: after a sequence of calls
    without a [nil] error for an error diagnostic, [SentMessages] holds one
    message per call, in the order of the calls, and each of the four
    counters has gone up once per call of its kind.  An error diagnostic for
    a [nil] error panics with its counter already up and no message
    recorded. *)
Theorem MockNotifier_records_every_call (Msg : Type) (MTError : Z)
    (cs : list (MockNotifier.call Msg)) (path : string) (m : MockNotifier.t Msg) :
  (Forall (λ c, MockNotifier.sentBy Msg MTError c ≠ None) cs →
   ∃ m',
     MockNotifier.calls Msg MTError cs (MockNotifier.NewMockNotifier Msg) = (Returned m', m')
     ∧ MockNotifier.sentMessages Msg m' = omap (MockNotifier.sentBy Msg MTError) cs
     ∧ length (MockNotifier.sentMessages Msg m') = length cs
     ∧ MockNotifier.sendShowMessageCounter Msg m'
       = Nat.iter (length (List.filter (MockNotifier.isSendShowMessage Msg) cs)) int_incr 0
     ∧ MockNotifier.sendCounter Msg m'
       = Nat.iter (length (List.filter (MockNotifier.isSend Msg) cs)) int_incr 0
     ∧ MockNotifier.sendErrorCounter Msg m'
       = Nat.iter (length (List.filter (MockNotifier.isSendError Msg) cs)) int_incr 0
     ∧ MockNotifier.sendErrorDiagnosticCounter Msg m'
       = Nat.iter (length (List.filter (MockNotifier.isSendErrorDiagnostic Msg) cs))
           int_incr 0)
  ∧ MockNotifier.calls Msg MTError (MockNotifier.CallSendErrorDiagnostic Msg path None :: cs) m
    = (Panicked,
       MockNotifier.mk Msg (MockNotifier.sendShowMessageCounter Msg m)
         (MockNotifier.sendCounter Msg m) (MockNotifier.sendErrorCounter Msg m)
         (int_incr (MockNotifier.sendErrorDiagnosticCounter Msg m))
         (MockNotifier.sentMessages Msg m)).
Proof.
  split; [|done]. intros Hok.
  assert (Hsome : Forall (λ c, is_Some (MockNotifier.sentBy Msg MTError c)) cs).
  { eapply Forall_impl; [exact Hok|]. intros c Hc. by apply not_eq_None_Some. }
  destruct (MockNotifier_calls_run Msg MTError cs (MockNotifier.NewMockNotifier Msg) Hsome)
    as (m' & Hrun & Hsent & Hcounters).
  exists m'. split; [done|]. split; [done|]. split; [|done].
  rewrite Hsent. cbn. clear -Hsome. induction Hsome as [|c cs [s Hs] _ IH]; [done|].
  cbn. rewrite Hs. cbn. by rewrite IH.
Qed.

Lemma MockNotifier_records_every_call_witness :
  ∃ m',
    MockNotifier.calls string 1
      [MockNotifier.CallSend string "first"; MockNotifier.CallSendError string (Some "boom");
       MockNotifier.CallSend string "second";
       MockNotifier.CallSendErrorDiagnostic string "/a.go" (Some "bad")]
      (MockNotifier.NewMockNotifier string) = (Returned m', m')
    ∧ MockNotifier.sendCounter string m' = 2
    ∧ MockNotifier.sentMessages string m'
      = [MockNotifier.Payload string "first";
         MockNotifier.ShowMessageParams string 1 "Vulnmap encountered an error: boom";
         MockNotifier.Payload string "second";
         MockNotifier.ErrorDiagnostic string "/a.go" "bad"].
Proof.
  destruct (MockNotifier_records_every_call string 1
              [MockNotifier.CallSend string "first"; MockNotifier.CallSendError string (Some "boom");
               MockNotifier.CallSend string "second";
               MockNotifier.CallSendErrorDiagnostic string "/a.go" (Some "bad")]
              "" (MockNotifier.NewMockNotifier string)) as [Hrecords _].
  destruct Hrecords as (m' & Hrun & Hsent & _ & _ & Hsend & _).
  { repeat constructor; discriminate. }
  exists m'. split; [exact Hrun|]. split; [by rewrite Hsend | by rewrite Hsent].
Defined.

(** X22. The fake authentication provider is authenticated exactly when the
    last call among [Authenticate] and [ClearAuthentication] was
    [Authenticate], and as it was created when there was none; the check
    function it hands out then succeeds, and fails otherwise.  [AuthURL]
    stays the expected URL whatever [SetAuthURL] set. *)
Theorem FakeAuthenticationProvider_follows_last_call
    (a : FakeAuthenticationProvider.t) (cs : list FakeAuthenticationProvider.call) :
  let a' := fold_left FakeAuthenticationProvider.step cs a in
  FakeAuthenticationProvider.IsAuthenticated a'
  = match last (List.filter FakeAuthenticationProvider.changesAuthentication cs) with
    | Some FakeAuthenticationProvider.CallAuthenticate => true
    | Some _ => false
    | None => FakeAuthenticationProvider.IsAuthenticated a
    end
  ∧ (FakeAuthenticationProvider.GetCheckAuthenticationFunction a'
     = ("fake auth successful", None)
     ↔ FakeAuthenticationProvider.IsAuthenticated a' = true)
  ∧ FakeAuthenticationProvider.AuthURL a' = FakeAuthenticationProvider.AuthURL a.
Proof.
  intros a'. subst a'. split; [|split].
  - revert a. induction cs as [|c cs IH]; intros a; [done|].
    cbn [fold_left List.filter]. rewrite IH.
    destruct c; cbn [FakeAuthenticationProvider.changesAuthentication]; [| |done].
    + rewrite last_cons. by destruct (last _).
    + rewrite last_cons. by destruct (last _).
  - unfold FakeAuthenticationProvider.GetCheckAuthenticationFunction.
    by destruct (FakeAuthenticationProvider.IsAuthenticated _).
  - revert a. induction cs as [|c cs IH]; intros a; [done|].
    cbn [fold_left]. rewrite IH. by destruct c.
Qed.
